(** * The photo browser page: URL-driven search and pagination

    A shallow embedding of [src/pages/index.tsx]: the derivation of the search
    term and the page number from the router's query, the variables of the
    [Photos] GraphQL query on the client and on the server, the debounced
    search box, the pagination controls and the image modal.

    Conventions of the model.
    - A JavaScript number is [NaN] or an integer ([Int z]).  All numbers the
      page computes are integers or [NaN].  The arithmetic, [parseInt] and
      the printing of a number are those of JavaScript on the safe integers
      ([safe_integer]: below 2^53 in absolute value); beyond them a double
      rounds, and from 10^21 on it prints with an exponent, which the model
      does not follow.  The model does not distinguish [-0] from [0] (they
      are [===] and print alike).
    - [range] of lodash is the array it returns; it throws when the array
      would have more than 2^32 - 1 elements ([Lodash.fits]), and then so
      does the render ([render] is the render with that way out).
    - A string is a Rocq [string], read as a sequence of code units below 256.
    - The router's query is a finite map from parameter names to
      [string | string[]]; an absent key is JavaScript's [undefined].
    - React is modelled by explicit state passing: a handler is a function on
      the component's state; an event runs its handler, the page renders
      again with the new state and the new query of the router, and
      [useEffect] runs after every update whose dependency array changed,
      cleaning up the previous run first.
    - The browser's timers are a finite map from timer ids to pending
      callbacks, with a clock in milliseconds. *)

From Stdlib Require Import ZArith Ascii String DecimalString DecimalPos.
From stdpp Require Import base option list gmap strings.

Local Open Scope Z_scope.

(** ** JavaScript numbers and strings *)

Module JS.

Inductive number := NaN | Int (z : Z).

(** [a === b] on numbers: [NaN] is equal to nothing, itself included. *)
Definition strict_eq (a b : number) : bool :=
  match a, b with
  | Int x, Int y => x =? y
  | _, _ => false
  end.

(** Truthiness of a number: [0] and [NaN] are falsy. *)
Definition truthy (a : number) : bool :=
  match a with
  | Int x => negb (x =? 0)
  | NaN => false
  end.

Definition add (a b : number) : number :=
  match a, b with
  | Int x, Int y => Int (x + y)
  | _, _ => NaN
  end.

Definition sub (a b : number) : number :=
  match a, b with
  | Int x, Int y => Int (x - y)
  | _, _ => NaN
  end.

(** [Math.max] and [Math.min] return [NaN] as soon as an argument is [NaN]. *)
Definition Math_max (a b : number) : number :=
  match a, b with
  | Int x, Int y => Int (Z.max x y)
  | _, _ => NaN
  end.

Definition Math_min (a b : number) : number :=
  match a, b with
  | Int x, Int y => Int (Z.min x y)
  | _, _ => NaN
  end.

(** [Math.ceil (a / b)] for integers [a] and [b] with [0 < b]. *)
Definition ceil_div (a b : Z) : Z := - ((- a) `div` b).

Definition code (c : ascii) : Z := Z.of_N (N_of_ascii c).

Definition is_digit (c : ascii) : bool :=
  (48 <=? code c) && (code c <=? 57).

Definition digit_value (c : ascii) : Z := code c - 48.

(** White space and line terminators that [parseInt] skips: TAB, LF, VT, FF,
    CR, SP and NBSP (the ones below 256). *)
Definition is_white_space (c : ascii) : bool :=
  ((9 <=? code c) && (code c <=? 13)) || (code c =? 32) || (code c =? 160).

Fixpoint trim_start (s : string) : string :=
  match s with
  | String c r => if is_white_space c then trim_start r else s
  | EmptyString => s
  end.

(** The longest prefix of decimal digits, read left to right; [acc] is [None]
    until a digit has been seen. *)
Fixpoint digits (s : string) (acc : option Z) : option Z :=
  match s with
  | String c r =>
      if is_digit c
      then digits r (Some (10 * default 0 acc + digit_value c))
      else acc
  | EmptyString => acc
  end.

(** The integers a double holds exactly, with their neighbours:
    [Number.isSafeInteger]. *)
Definition safe_integer (z : Z) : Prop :=
  - 9007199254740992 < z < 9007199254740992.

(** [parseInt(s, 10)]: skip leading white space, read one optional sign, then
    the longest run of digits; no digit at all gives [NaN].  The result is
    JavaScript's when the integer read is a [safe_integer]; a longer run of
    digits is rounded to a double there and kept whole here. *)
Definition parseInt (s : string) : number :=
  let s1 := trim_start s in
  let '(sign, s2) :=
    match s1 with
    | String c r =>
        if Ascii.eqb c "-" then (-1, r)
        else if Ascii.eqb c "+" then (1, r)
        else (1, s1)
    | EmptyString => (1, s1)
    end in
  match digits s2 None with
  | Some n => Int (sign * n)
  | None => NaN
  end.

(** A number inside a template literal: [`${n}`].  The text is
    JavaScript's for a [safe_integer]: all its digits, in decimal. *)
Definition ToString (n : number) : string :=
  match n with
  | NaN => "NaN"
  | Int z => NilZero.string_of_int (Z.to_int z)
  end.

(** Truthiness of a string: only the empty string is falsy. *)
Definition truthy_string (s : string) : bool :=
  match s with
  | EmptyString => false
  | String _ _ => true
  end.

End JS.

Export JS.

(** ** The router's query *)

(** A value of [router.query]: [string | string[]]. *)
Inductive value := Str (s : string) | Arr (l : list string).

Module Url.

(** The router reads the query of a pushed URL the way [URLSearchParams]
    does.  The URL parser drops TAB, LF and CR, the fragment starts at the
    first [#], the query at the first [?]; the query is cut at every [&],
    each non-empty piece is cut at its first [=], and in names and values
    [+] becomes a space and [%XY] the code unit [XY].  The decoding is exact
    on ASCII. *)

Definition is_tab_or_newline (c : ascii) : bool :=
  (code c =? 9) || (code c =? 10) || (code c =? 13).

Fixpoint strip (s : string) : string :=
  match s with
  | String c r => if is_tab_or_newline c then strip r else String c (strip r)
  | EmptyString => EmptyString
  end.

(** [break sep s]: the text before the first [sep], and the text after it
    when there is one. *)
Fixpoint break (sep : ascii) (s : string) : string * option string :=
  match s with
  | String c r =>
      if Ascii.eqb c sep then (EmptyString, Some r)
      else let '(a, b) := break sep r in (String c a, b)
  | EmptyString => (EmptyString, None)
  end.

Fixpoint split (sep : ascii) (s : string) : list string :=
  match s with
  | String c r =>
      if Ascii.eqb c sep then EmptyString :: split sep r
      else match split sep r with
           | h :: t => String c h :: t
           | [] => [String c EmptyString]
           end
  | EmptyString => [EmptyString]
  end.

Definition hex (c : ascii) : option Z :=
  if is_digit c then Some (code c - 48)
  else if (65 <=? code c) && (code c <=? 70) then Some (code c - 55)
  else if (97 <=? code c) && (code c <=? 102) then Some (code c - 87)
  else None.

Fixpoint plus_to_space (s : string) : string :=
  match s with
  | String c r => String (if Ascii.eqb c "+" then " "%char else c) (plus_to_space r)
  | EmptyString => EmptyString
  end.

Fixpoint percent_decode (s : string) : string :=
  match s with
  | String c r =>
      match r with
      | String h (String l r') =>
          match Ascii.eqb c "%", hex h, hex l with
          | true, Some a, Some b =>
              String (ascii_of_N (Z.to_N (16 * a + b))) (percent_decode r')
          | _, _, _ => String c (percent_decode r)
          end
      | _ => String c (percent_decode r)
      end
  | EmptyString => EmptyString
  end.

Definition decode (s : string) : string := percent_decode (plus_to_space s).

(** One [name=value] piece of the query. *)
Definition pair_of (piece : string) : string * string :=
  let '(name, v) := break "=" piece in (decode name, decode (default EmptyString v)).

(** The name-value pairs of a URL, in order. *)
Definition searchParams (url : string) : list (string * string) :=
  let '(no_fragment, _) := break "#" (strip url) in
  match break "?" no_fragment with
  | (_, Some search) =>
      map pair_of (filter (fun piece => piece ≠ EmptyString) (split "&" search))
  | (_, None) => []
  end.

(** The router's [searchParamsToUrlQuery]: a name that occurs once maps to
    its string, a name that occurs several times to the array of its
    values. *)
Definition add_param (query : gmap string value) (kv : string * string)
  : gmap string value :=
  match query !! kv.1 with
  | None => <[kv.1 := Str kv.2]> query
  | Some (Str s) => <[kv.1 := Arr [s; kv.2]]> query
  | Some (Arr l) => <[kv.1 := Arr (l ++ [kv.2])]> query
  end.

Definition query_of (url : string) : gmap string value :=
  foldl add_param ∅ (searchParams url).

(** Every character of [s] passes the test [P]. *)
Fixpoint all (P : ascii → bool) (s : string) : bool :=
  match s with
  | String c r => P c && all P r
  | EmptyString => true
  end.

(** The characters that do not come back from the query of a URL as they
    went in, when they are written into it unescaped. *)
Definition is_reserved (c : ascii) : bool :=
  is_tab_or_newline c || Ascii.eqb c "#" || Ascii.eqb c "&" ||
  Ascii.eqb c "%" || Ascii.eqb c "+".

(** A string without reserved characters. *)
Definition safe (s : string) : bool := all (fun c => negb (is_reserved c)) s.

End Url.

(** [range(start, end)] of lodash/fp on the numbers the page passes: both
    bounds go through [toFinite] ([NaN] becomes [0]), and the step is [1]
    when [start < end] and [-1] otherwise. *)
Module Lodash.

Definition toFinite (n : number) : Z :=
  match n with
  | NaN => 0
  | Int z => z
  end.

Definition range (start stop : number) : list Z :=
  let s := toFinite start in
  let e := toFinite stop in
  if s <? e
  then map (fun i : nat => s + Z.of_nat i) (seq 0 (Z.to_nat (e - s)))
  else map (fun i : nat => s - Z.of_nat i) (seq 0 (Z.to_nat (s - e))).

(** [range] first allocates its result with [Array(length)], which throws a
    [RangeError] when the length is beyond the longest array, 2^32 - 1
    elements.  [range] above is the array returned when the length
    [fits]. *)
Definition length_of (start stop : number) : Z :=
  Z.abs (toFinite stop - toFinite start).

Definition MAX_ARRAY_LENGTH : Z := 4294967295.

Definition fits (start stop : number) : bool :=
  length_of start stop <=? MAX_ARRAY_LENGTH.

End Lodash.

(** ** Data of the page *)

Record Photo := {
  photo_id : Z;
  photo_title : string;
  photo_url : string;
  photo_thumbnailUrl : string
}.

#[global] Instance Photo_eq_dec : EqDecision Photo.
Proof. solve_decision. Defined.

(** [PhotosData]: [photos.data] and [photos.meta.totalCount]. *)
Record PhotosData := {
  photos_data : list Photo;
  meta_totalCount : Z
}.

Record PhotosVars := {
  vars_q : string;
  vars_page : number;
  vars_limit : Z
}.

(** What [useQuery] hands to a render. *)
Record QueryResult := {
  data : option PhotosData;
  error : option string;
  loading : bool
}.

(** A pending [setTimeout]: when it may fire, and the [search] and [q] its
    callback closed over. *)
Record Timer := {
  fire_at : Z;
  timer_search : string;
  timer_q : string
}.

(** The state behind a render of [IndexPage]: the router, the two [useState]
    cells, the latest result of [useQuery], the bookkeeping of [useEffect]
    (the dependency array of its latest run and the timer id its cleanup
    holds), and the browser (pending timers, next timer id, clock in ms, and
    the log of [router.push] calls, latest first). *)
Record State := {
  router_query : gmap string value;
  search : string;
  selectedPhoto : option Photo;
  result : QueryResult;
  deps : string * string;
  handler : Z;
  timers : gmap Z Timer;
  next_handle : Z;
  now : Z;
  pushed : list (Z * string)
}.

(** What a render returns. *)
Record PaginationView := {
  first_disabled : bool;
  prev_disabled : bool;
  items : list (Z * bool);
  next_disabled : bool;
  last_disabled : bool
}.

Record ModalView := {
  show : bool;
  image_src : option string
}.

Inductive View :=
  | Paragraph (text : string)
  | Page (search_value : string) (rows : list Photo) (spinner : bool)
         (pagination : option PaginationView) (modal : ModalView).

(** What can happen to the page. *)
Inductive Event :=
  | SearchChange (v : string)
  | FirstClick
  | PrevClick
  | NextClick
  | LastClick
  | PageSelect (p : Z)
  | SelectPhoto (photo : Photo)
  | ModalHide
  | TimerFire (id : Z)
  | Elapse (ms : Z)
  | RouteChange (query : gmap string value)
  | Fetched (r : QueryResult).

(** *** State updates *)

Definition set_route (query : gmap string value) (log : list (Z * string))
  (st : State) : State :=
  {| router_query := query; search := search st;
     selectedPhoto := selectedPhoto st; result := result st; deps := deps st;
     handler := handler st; timers := timers st;
     next_handle := next_handle st; now := now st; pushed := log |}.

Definition setSearch (v : string) (st : State) : State :=
  {| router_query := router_query st; search := v;
     selectedPhoto := selectedPhoto st; result := result st; deps := deps st;
     handler := handler st; timers := timers st;
     next_handle := next_handle st; now := now st; pushed := pushed st |}.

Definition setSelectedPhoto (p : option Photo) (st : State) : State :=
  {| router_query := router_query st; search := search st;
     selectedPhoto := p; result := result st; deps := deps st;
     handler := handler st; timers := timers st;
     next_handle := next_handle st; now := now st; pushed := pushed st |}.

Definition set_result (r : QueryResult) (st : State) : State :=
  {| router_query := router_query st; search := search st;
     selectedPhoto := selectedPhoto st; result := r; deps := deps st;
     handler := handler st; timers := timers st;
     next_handle := next_handle st; now := now st; pushed := pushed st |}.

Definition set_now (t : Z) (st : State) : State :=
  {| router_query := router_query st; search := search st;
     selectedPhoto := selectedPhoto st; result := result st; deps := deps st;
     handler := handler st; timers := timers st;
     next_handle := next_handle st; now := t; pushed := pushed st |}.

(** [clearTimeout(id)]: forget the timer; an id that is not pending is
    ignored. *)
Definition clearTimeout (id : Z) (st : State) : State :=
  {| router_query := router_query st; search := search st;
     selectedPhoto := selectedPhoto st; result := result st; deps := deps st;
     handler := handler st; timers := delete id (timers st);
     next_handle := next_handle st; now := now st; pushed := pushed st |}.

(** [setTimeout(callback, delay)] registers the callback under a fresh id and
    returns the id. *)
Definition setTimeout (callback_search callback_q : string) (delay : Z)
  (st : State) : Z * State :=
  (next_handle st,
   {| router_query := router_query st; search := search st;
      selectedPhoto := selectedPhoto st; result := result st; deps := deps st;
      handler := handler st;
      timers := <[next_handle st :=
                    {| fire_at := now st + delay;
                       timer_search := callback_search;
                       timer_q := callback_q |}]> (timers st);
      next_handle := next_handle st + 1; now := now st;
      pushed := pushed st |}).

(** The effect ran: remember its dependency array and the id its cleanup
    will clear. *)
Definition effect_ran (d : string * string) (h : Z) (st : State) : State :=
  {| router_query := router_query st; search := search st;
     selectedPhoto := selectedPhoto st; result := result st; deps := d;
     handler := h; timers := timers st;
     next_handle := next_handle st; now := now st; pushed := pushed st |}.

(** ** Values derived from the router's query (lines 62-69) *)

Definition IndexPage_q (query : gmap string value) : string :=
  match query !! "q" with
  | Some (Str s) => if truthy_string s then s else ""
  | _ => ""
  end.

Definition IndexPage_page (query : gmap string value) : number :=
  match query !! "page" with
  | Some (Str s) => if truthy_string s then parseInt s else Int 1
  | _ => Int 1
  end.

(** ** The page component *)

Section IndexPage.

(** [LIST_LIMIT] of [lib/configs], the fixed page size.  The module is not
    among the sources, so the constant is a parameter of the development. *)
Variable LIST_LIMIT : Z.

(** How the router reads the query of a URL that is pushed to it.  The
    component is modelled over any such reading; [Url.query_of] is the
    router's. *)
Variable resolve : string → gmap string value.

(** [router.push(url, undefined, { shallow: true })]: the router takes the
    query of [url], and the call is logged with the time it was made. *)
Definition push (url : string) (st : State) : State :=
  set_route (resolve url) ((now st, url) :: pushed st) st.

(** The template of line 74, [`/?q=${search}&page=1`]. *)
Definition search_url (search : string) : string :=
  "/?q=" +:+ search +:+ "&page=1".

(** The template of line 83, [`/?q=${q}&page=${page}`]. *)
Definition page_url (q : string) (page : number) : string :=
  "/?q=" +:+ q +:+ "&page=" +:+ ToString page.

Definition setPage (page : number) (st : State) : State :=
  push (page_url (IndexPage_q (router_query st)) page) st.

(** The variables of [useQuery] (lines 92-99). *)
Definition useQuery_variables (query : gmap string value) : PhotosVars :=
  {| vars_q := match query !! "q" with
               | Some (Str s) => s
               | _ => ""
               end;
     vars_page := match query !! "page" with
                  | Some (Str s) => parseInt s
                  | _ => Int 1
                  end;
     vars_limit := LIST_LIMIT |}.

(** The variables of the query in [getServerSideProps] (lines 222-232), from
    [context.query]. *)
Definition getServerSideProps_variables (query : gmap string value)
  : PhotosVars :=
  {| vars_q := match query !! "q" with
               | Some (Str s) => if truthy_string s then s else ""
               | _ => ""
               end;
     vars_page := match query !! "page" with
                  | Some (Str s) => if truthy_string s then parseInt s else Int 1
                  | _ => Int 1
                  end;
     vars_limit := LIST_LIMIT |}.

(** Lines 117-119. *)
Definition lastPage (r : QueryResult) : Z :=
  match data r with
  | Some d =>
      if truthy (Int (meta_totalCount d))
      then ceil_div (meta_totalCount d) LIST_LIMIT
      else 0
  | None => 0
  end.

Definition handleSearchChange (v : string) (st : State) : State :=
  setPage (Int 1) (setSearch v st).

Definition handleSelectPhoto (photo : Photo) (st : State) : State :=
  setSelectedPhoto (Some photo) st.

Definition handleModalHide (st : State) : State :=
  setSelectedPhoto None st.

Definition handleFirstClick (st : State) : State :=
  setPage (Int 1) st.

Definition handleLastClick (st : State) : State :=
  setPage (Int (lastPage (result st))) st.

Definition handlePrevClick (st : State) : State :=
  setPage (sub (IndexPage_page (router_query st)) (Int 1)) st.

Definition handleNextClick (st : State) : State :=
  setPage (add (IndexPage_page (router_query st)) (Int 1)) st.

(** The callback of the debounce timer (lines 72-75), with the [search] and
    [q] it closed over. *)
Definition timeout (t : Timer) (st : State) : State :=
  if decide (timer_search t = timer_q t) then st
  else push (search_url (timer_search t)) st.

(** [useEffect(..., [search, q])] (lines 71-80) after an update: when the
    dependency array changed, the cleanup of the previous run clears its
    timer, and the effect sets a new one, 500 ms ahead. *)
Definition useEffect (st : State) : State :=
  let d := (search st, IndexPage_q (router_query st)) in
  if decide (deps st = d) then st
  else
    let '(h, st') := setTimeout d.1 d.2 500 (clearTimeout (handler st) st) in
    effect_ran d h st'.

(** The first render: [useState(q)] starts the search box at the URL's [q],
    and the effect runs for the first time. *)
Definition mount (query : gmap string value) (r : QueryResult) : State :=
  let q := IndexPage_q query in
  let '(h, st) :=
    setTimeout q q 500
      {| router_query := query; search := q; selectedPhoto := None;
         result := r; deps := (q, q); handler := 0; timers := ∅;
         next_handle := 1; now := 0; pushed := [] |} in
  effect_ran (q, q) h st.

(** The pagination bar (lines 173-201). *)
Definition Pagination_view (page : number) (last : Z) : PaginationView :=
  {| first_disabled := strict_eq page (Int 1);
     prev_disabled := strict_eq page (Int 1);
     items :=
       map (fun p => (p, strict_eq (Int p) page))
         (Lodash.range (Math_max (Int 1) (sub page (Int 2)))
                       (Math_min (add (Int last) (Int 1)) (add page (Int 3))));
     next_disabled := strict_eq page (Int last);
     last_disabled := strict_eq page (Int last) |}.

(** What [IndexPage] returns (lines 127-213). *)
Definition IndexPage (st : State) : View :=
  let page := IndexPage_page (router_query st) in
  if error (result st) is Some _ then Paragraph "Error"
  else
    Page (search st)
      (match data (result st) with
       | Some d => photos_data d
       | None => []
       end)
      (loading (result st))
      (match data (result st) with
       | Some d =>
           if truthy (Int (meta_totalCount d))
           then Some (Pagination_view page (lastPage (result st)))
           else None
       | None => None
       end)
      {| show := bool_decide (is_Some (selectedPhoto st));
         image_src := photo_url <$> selectedPhoto st |}.

(** *** The page as a transition system *)

(** What an event does to the state, before React renders again.  A numbered
    button and a table row call the [onSelect] they were given with their
    own [page] and [photo]; a timer that fires leaves the table of pending
    timers and runs its callback. *)
Definition handle (ev : Event) (st : State) : State :=
  match ev with
  | SearchChange v => handleSearchChange v st
  | FirstClick => handleFirstClick st
  | PrevClick => handlePrevClick st
  | NextClick => handleNextClick st
  | LastClick => handleLastClick st
  | PageSelect p => setPage (Int p) st
  | SelectPhoto photo => handleSelectPhoto photo st
  | ModalHide => handleModalHide st
  | TimerFire id =>
      match timers st !! id with
      | Some t => timeout t (clearTimeout id st)
      | None => st
      end
  | Elapse ms => set_now (now st + ms) st
  | RouteChange query => set_route query (pushed st) st
  | Fetched r => set_result r st
  end.

(** An event can happen when the control it comes from is on the page; a
    timer fires when it is pending and its time has come; time only moves
    forward; the router (back and forward buttons) and the GraphQL client
    may deliver anything at any time. *)
Definition enabled (st : State) (ev : Event) : bool :=
  match ev with
  | SearchChange _ =>
      match IndexPage st with
      | Page _ _ _ _ _ => true
      | Paragraph _ => false
      end
  | FirstClick | PrevClick | NextClick | LastClick =>
      match IndexPage st with
      | Page _ _ _ (Some _) _ => true
      | _ => false
      end
  | PageSelect p =>
      match IndexPage st with
      | Page _ _ _ (Some bar) _ => bool_decide (p ∈ (items bar).*1)
      | _ => false
      end
  | SelectPhoto photo =>
      match IndexPage st with
      | Page _ rows _ _ _ => bool_decide (photo ∈ rows)
      | Paragraph _ => false
      end
  | ModalHide =>
      match IndexPage st with
      | Page _ _ _ _ m => show m
      | Paragraph _ => false
      end
  | TimerFire id =>
      match timers st !! id with
      | Some t => bool_decide (fire_at t ≤ now st)
      | None => false
      end
  | Elapse ms => bool_decide (0 ≤ ms)
  | RouteChange _ | Fetched _ => true
  end.

(** One step: the handler, then the effects of the render that follows. *)
Definition step (st : State) (ev : Event) : option State :=
  if enabled st ev then Some (useEffect (handle ev st)) else None.

Fixpoint run (st : State) (evs : list Event) : option State :=
  match evs with
  | [] => Some st
  | ev :: evs' =>
      match step st ev with
      | Some st' => run st' evs'
      | None => None
      end
  end.

Inductive reachable : State → Prop :=
  | reachable_mount query r : reachable (mount query r)
  | reachable_step st ev st' :
      reachable st → step st ev = Some st' → reachable st'.

(** What holds of the effect's bookkeeping and the browser's timers at every
    moment: a timer id is handed out once, and a pending timer is the one the
    cleanup holds, closed over the dependency array of the effect's latest
    run, due at most 500 ms from now. *)
Definition tidy (st : State) : Prop :=
  handler st < next_handle st ∧
  (timers st = ∅ ∨
   ∃ t, timers st = {[handler st := t]} ∧
        (timer_search t, timer_q t) = deps st ∧
        fire_at t ≤ now st + 500).

(** After a step the effect has caught up: its dependency array is the
    current [search] and [q]. *)
Definition in_sync (st : State) : Prop :=
  deps st = (search st, IndexPage_q (router_query st)) ∧ tidy st.

(** The debounce has done its work, or is about to: the search term is the
    URL's [q], or a timer is pending, or a navigation to the URL of the
    search term has been made. *)
Definition debounced (st : State) : Prop :=
  search st = IndexPage_q (router_query st) ∨
  timers st ≠ ∅ ∨
  ∃ t, (t, search_url (search st)) ∈ pushed st.

(** The same state with another error in the query result. *)
Definition with_error (e : option string) (st : State) : State :=
  set_result {| data := data (result st); error := e;
                loading := loading (result st) |} st.

Definition modal_shown (v : View) : bool :=
  match v with
  | Page _ _ _ _ m => show m
  | Paragraph _ => false
  end.

Definition modal_image (v : View) : option string :=
  match v with
  | Page _ _ _ _ m => image_src m
  | Paragraph _ => None
  end.

Definition pagination_of (v : View) : option PaginationView :=
  match v with
  | Page _ _ _ bar _ => bar
  | Paragraph _ => None
  end.

(** The render with its way out: [None] when it throws.  The call of
    [range] for the numbered buttons is the one place where it can, and it
    is reached when the pagination bar is rendered; [IndexPage] is what the
    render returns otherwise. *)
Definition render (st : State) : option View :=
  let page := IndexPage_page (router_query st) in
  match pagination_of (IndexPage st) with
  | Some _ =>
      if Lodash.fits
           (Math_max (Int 1) (sub page (Int 2)))
           (Math_min (add (Int (lastPage (result st))) (Int 1))
                     (add page (Int 3)))
      then Some (IndexPage st)
      else None
  | None => Some (IndexPage st)
  end.

(** *** Example data *)

Definition a_photo : Photo :=
  {| photo_id := 1; photo_title := "accusamus beatae";
     photo_url := "https://via.placeholder.com/600/92c952";
     photo_thumbnailUrl := "https://via.placeholder.com/150/92c952" |}.

Definition loaded : QueryResult :=
  {| data := Some {| photos_data := [a_photo]; meta_totalCount := 95 |};
     error := None; loading := false |}.

Definition failed : QueryResult :=
  {| data := None; error := Some "Network error"; loading := false |}.

(** The page opened at [/?q=cat&page=3]. *)
Definition cat_page_3 : State :=
  mount (<["page" := Str "3"]> {["q" := Str "cat"]}) loaded.

(** *** The derivation in the words of the specification

    [q] is the string value of the parameter and the empty string when the
    parameter is absent or not a single string; [page] is the base-10 parse
    of the parameter and [1] when it is absent or not a single string. *)



Definition starts_with_digit (s : string) : bool :=
  match s with
  | String c _ => is_digit c
  | EmptyString => false
  end.

(** What is left of a string after its leading white space and one sign. *)
Definition unsigned_part (s : string) : string :=
  match trim_start s with
  | String c r =>
      if Ascii.eqb c "-" || Ascii.eqb c "+" then r else String c r
  | EmptyString => EmptyString
  end.

(** [parseInt] finds an integer at the start of [s]. *)
Definition reads_an_integer (s : string) : bool :=
  starts_with_digit (unsigned_part s).

Definition is_pagination (ev : Event) : bool :=
  match ev with
  | FirstClick | PrevClick | NextClick | LastClick | PageSelect _ => true
  | _ => false
  end.

Definition is_fetched (ev : Event) : bool :=
  match ev with
  | Fetched _ => true
  | _ => false
  end.

Definition is_timer (ev : Event) : bool :=
  match ev with
  | TimerFire _ => true
  | _ => false
  end.

(** The events that have nothing to do with the search term or the URL. *)
Definition is_quiet (ev : Event) : bool :=
  match ev with
  | SelectPhoto _ | ModalHide | Fetched _ | Elapse _ => true
  | _ => false
  end.

(** The events that come from a control of the page. *)
Definition is_user_event (ev : Event) : bool :=
  match ev with
  | TimerFire _ | Elapse _ | RouteChange _ | Fetched _ => false
  | _ => true
  end.

(** ** Properties *)

(** *** Numbers *)

Lemma strict_eq_Int a z : strict_eq a (Int z) = true ↔ a = Int z.
Proof.
  destruct a as [|x]; simpl.
  - split; discriminate.
  - rewrite Z.eqb_eq. split; congruence.
Qed.

(** [ceil_div a b] is the ceiling of [a / b]: the least [n] with
    [a ≤ b * n]. *)
Lemma ceil_div_bounds a b :
  0 < b → b * (ceil_div a b - 1) < a ≤ b * ceil_div a b.
Proof.
  intros Hb. unfold ceil_div.
  pose proof (Z.div_mod (- a) b ltac:(lia)) as Hdm.
  pose proof (Z.mod_pos_bound (- a) b Hb) as Hr.
  lia.
Qed.

Lemma digits_Some s a : ∃ n, digits s (Some a) = Some n.
Proof.
  revert a. induction s as [|c r IH]; intros a; simpl; [eauto|].
  destruct (is_digit c); eauto.
Qed.

Lemma digits_None s : digits s None = None ↔ starts_with_digit s = false.
Proof.
  destruct s as [|c r]; simpl; [done|].
  destruct (is_digit c); [|done].
  destruct (digits_Some r (10 * 0 + digit_value c)) as [n Hn].
  simpl. rewrite Hn. done.
Qed.

Lemma parseInt_unsigned_part s :
  parseInt s = NaN ↔ digits (unsigned_part s) None = None.
Proof.
  unfold parseInt, unsigned_part.
  destruct (trim_start s) as [|c r]; simpl; [done|].
  destruct (Ascii.eqb c "-"), (Ascii.eqb c "+"); simpl;
    repeat case_match; split; congruence.
Qed.

(** [parseInt] gives [NaN] exactly on the strings that, after leading white
    space and one optional sign, do not go on with a digit. *)
Lemma parseInt_NaN s : parseInt s = NaN ↔ reads_an_integer s = false.
Proof. rewrite parseInt_unsigned_part. apply digits_None. Qed.

(** Printing a number and parsing it back. *)

Lemma digits_of_uint_acc d p :
  digits (NilEmpty.string_of_uint d) (Some (Z.pos p)) =
  Some (Z.pos (Pos.of_uint_acc d p)).
Proof.
  revert p. induction d as [|d IH|d IH|d IH|d IH|d IH|d IH|d IH|d IH|d IH|d IH];
    intros p; [done|..];
    cbn [NilEmpty.string_of_uint digits Pos.of_uint_acc];
    (match goal with |- context [is_digit ?c] => change (is_digit c) with true end);
    cbv iota; rewrite <- IH; f_equal; f_equal;
    (match goal with
     | |- context [digit_value ?c] =>
         let v := eval vm_compute in (digit_value c) in
         change (digit_value c) with v
     end);
    cbn; lia.
Qed.

Lemma digits_of_uint d :
  digits (NilEmpty.string_of_uint d) (Some 0) = Some (Z.of_uint d).
Proof.
  unfold Z.of_uint.
  induction d as [|d IH|d IH|d IH|d IH|d IH|d IH|d IH|d IH|d IH|d IH];
    [done|..];
    cbn [NilEmpty.string_of_uint digits Pos.of_uint];
    (match goal with |- context [is_digit ?c] => change (is_digit c) with true end);
    cbv iota; [exact IH|..]; cbn [Z.of_N]; rewrite <- digits_of_uint_acc; f_equal.
Qed.

Lemma digits_of_uint_start d :
  d ≠ Decimal.Nil →
  digits (NilEmpty.string_of_uint d) None = Some (Z.of_uint d).
Proof.
  intros Hd. rewrite <- digits_of_uint. destruct d; done.
Qed.

Lemma starts_with_digit_uint d :
  d ≠ Decimal.Nil → starts_with_digit (NilEmpty.string_of_uint d) = true.
Proof. destruct d; done. Qed.

Lemma parseInt_starts_with_digit s :
  starts_with_digit s = true → parseInt s = Int (default 0 (digits s None)).
Proof.
  destruct s as [|c r]; [done|]. intros Hc. unfold parseInt.
  assert (is_white_space c = false) as Hw.
  { revert Hc. unfold starts_with_digit, is_digit, is_white_space. lia. }
  cbn [trim_start]. rewrite Hw.
  assert (Ascii.eqb c "-" = false) as ->.
  { apply Ascii.eqb_neq. intros ->. done. }
  assert (Ascii.eqb c "+" = false) as ->.
  { apply Ascii.eqb_neq. intros ->. done. }
  destruct (digits_None (String c r)) as [H1 _].
  destruct (digits (String c r) None) as [n|].
  - simpl. f_equal. lia.
  - rewrite H1 in Hc; done.
Qed.

Lemma string_of_uint_nonnil d :
  d ≠ Decimal.Nil → NilZero.string_of_uint d = NilEmpty.string_of_uint d.
Proof. destruct d; done. Qed.

Lemma parseInt_ToString n : parseInt (ToString n) = n.
Proof.
  destruct n as [|[|p|p]]; [done|done|..];
    pose proof (DecimalPos.Unsigned.to_uint_nonnil p) as Hnil;
    unfold ToString, NilZero.string_of_int, Z.to_int;
    rewrite string_of_uint_nonnil by done.
  - rewrite parseInt_starts_with_digit by by apply starts_with_digit_uint.
    rewrite digits_of_uint_start by done. unfold Z.of_uint.
    rewrite DecimalPos.Unsigned.of_to. done.
  - unfold parseInt. cbn [trim_start].
    change (is_white_space "-") with false. cbv iota.
    change (Ascii.eqb "-" "-") with true. cbv iota.
    rewrite digits_of_uint_start by done. unfold Z.of_uint.
    rewrite DecimalPos.Unsigned.of_to. done.
Qed.

(** *** The render after an update *)

Lemma useEffect_frame st :
  router_query (useEffect st) = router_query st ∧
  search (useEffect st) = search st ∧
  selectedPhoto (useEffect st) = selectedPhoto st ∧
  result (useEffect st) = result st ∧
  now (useEffect st) = now st ∧
  pushed (useEffect st) = pushed st.
Proof. unfold useEffect. case_decide; simpl; done. Qed.

Lemma IndexPage_useEffect st : IndexPage (useEffect st) = IndexPage st.
Proof.
  destruct (useEffect_frame st) as (Hq & Hs & Hp & Hr & _).
  unfold IndexPage. rewrite Hq, Hs, Hp, Hr. done.
Qed.

Lemma step_Some st ev st' :
  step st ev = Some st' ↔ enabled st ev = true ∧ st' = useEffect (handle ev st).
Proof.
  unfold step. destruct (enabled st ev); split.
  - intros [= <-]. done.
  - intros [_ ->]. done.
  - discriminate.
  - intros [? _]. discriminate.
Qed.

(** Neither the effect nor a handler looks at the error of the query. *)
Lemma useEffect_with_error e st :
  useEffect (with_error e st) = with_error e (useEffect st).
Proof. unfold useEffect. simpl. case_decide; done. Qed.

Lemma handle_with_error ev e st :
  is_fetched ev = false →
  handle ev (with_error e st) = with_error e (handle ev st).
Proof.
  destruct ev; try done; intros _; simpl.
  destruct (timers st !! id) as [t|]; [|done].
  unfold timeout. case_decide; done.
Qed.

(** *** The variables of the query *)

(** C5. Every fetch of the Photos query, the client's and the server's,
    passes the constant [LIST_LIMIT] as [limit], whatever the state of the
    page and whatever the query of the URL or of the request. *)
Theorem limit_is_LIST_LIMIT (st : State) (context_query : gmap string value) :
  vars_limit (useQuery_variables (router_query st)) = LIST_LIMIT ∧
  vars_limit (getServerSideProps_variables context_query) = LIST_LIMIT.
Proof. split; reflexivity. Qed.

(** The server derives its variables the way the page derives [q] and
    [page]. *)
Lemma server_variables_derived query :
  getServerSideProps_variables query =
  {| vars_q := IndexPage_q query; vars_page := IndexPage_page query;
     vars_limit := LIST_LIMIT |}.
Proof. reflexivity. Qed.

(** Away from an empty [page] parameter, the server and [useQuery] compute
    the same variables. *)
Lemma server_and_client_agree query :
  query !! "page" ≠ Some (Str "") →
  getServerSideProps_variables query = useQuery_variables query.
Proof.
  intros Hpage. unfold getServerSideProps_variables, useQuery_variables.
  f_equal.
  - destruct (query !! "q") as [[[|c r]|l]|]; done.
  - destruct (query !! "page") as [[[|c r]|l]|]; done.
Qed.

(** C8. At the request [/?page=] the server fetches page 1, while
    [useQuery] on the client asks for page [NaN]: the guard on the empty
    string that the server and the page's own [page] have is missing in the
    variables of [useQuery]. *)
Theorem server_and_client_differ_on_empty_page :
  vars_page (getServerSideProps_variables {["page" := Str ""]}) = Int 1 ∧
  vars_page (useQuery_variables {["page" := Str ""]}) = NaN ∧
  IndexPage_page {["page" := Str ""]} = Int 1.
Proof. done. Qed.

(** *** Pagination *)

(** C2. Whenever the pagination bar is rendered, First and Prev are disabled
    exactly when the page is 1, and Next and Last exactly when the page is
    the last page, the ceiling of [totalCount / LIST_LIMIT]. *)
Theorem pagination_disabled_at_boundaries (st : State) (bar : PaginationView) :
  0 < LIST_LIMIT →
  pagination_of (IndexPage st) = Some bar →
  ∃ d last,
    data (result st) = Some d ∧
    LIST_LIMIT * (last - 1) < meta_totalCount d ≤ LIST_LIMIT * last ∧
    (first_disabled bar = true ↔ IndexPage_page (router_query st) = Int 1) ∧
    (prev_disabled bar = true ↔ IndexPage_page (router_query st) = Int 1) ∧
    (next_disabled bar = true ↔ IndexPage_page (router_query st) = Int last) ∧
    (last_disabled bar = true ↔ IndexPage_page (router_query st) = Int last).
Proof.
  intros Hlimit. unfold IndexPage, lastPage.
  destruct (error (result st)); [discriminate|].
  destruct (data (result st)) as [d|]; [|discriminate]. cbn -[truthy ceil_div].
  destruct (truthy (Int (meta_totalCount d))); [|discriminate].
  intros [= <-]. exists d, (ceil_div (meta_totalCount d) LIST_LIMIT).
  split; [done|]. split; [by apply ceil_div_bounds|].
  simpl. rewrite !strict_eq_Int. done.
Qed.

(** *** The search term and the page number *)


(** C10, as amended. When the [page] parameter is a non-empty string that,
    after leading white space and one optional sign, does not go on with a
    decimal digit, [parseInt] gives [NaN], and this [NaN] is the current
    page: it is the [page] variable of the query, no pagination button is
    disabled, no numbered button is shown, and Prev and Next navigate to
    page [NaN]. *)
Theorem NaN_page_is_used_unvalidated (st : State) (s : string) :
  router_query st !! "page" = Some (Str s) →
  s ≠ "" →
  reads_an_integer s = false →
  parseInt s = NaN ∧
  IndexPage_page (router_query st) = NaN ∧
  vars_page (useQuery_variables (router_query st)) = NaN ∧
  (∀ bar, pagination_of (IndexPage st) = Some bar →
     first_disabled bar = false ∧ prev_disabled bar = false ∧
     next_disabled bar = false ∧ last_disabled bar = false ∧
     items bar = []) ∧
  pushed (handlePrevClick st) =
    (now st, "/?q=" +:+ IndexPage_q (router_query st) +:+ "&page=NaN")
      :: pushed st ∧
  pushed (handleNextClick st) =
    (now st, "/?q=" +:+ IndexPage_q (router_query st) +:+ "&page=NaN")
      :: pushed st.
Proof.
  intros Hpage Hs Hnan. apply parseInt_NaN in Hnan.
  assert (IndexPage_page (router_query st) = NaN) as Hp.
  { unfold IndexPage_page. rewrite Hpage. destruct s; done. }
  split; [done|]. split; [done|]. split.
  { unfold useQuery_variables. rewrite Hpage. done. }
  split.
  { intros bar. unfold IndexPage.
    destruct (error (result st)); [discriminate|].
    destruct (data (result st)) as [d|]; [|discriminate].
    cbn -[truthy ceil_div].
    destruct (truthy (Int (meta_totalCount d))); [|discriminate].
    intros [= <-]. rewrite Hp. done. }
  unfold handlePrevClick, handleNextClick, setPage. rewrite Hp. done.
Qed.

(** *** The error page *)

(** C4. When the query has an error the page is the paragraph [Error] and
    nothing else: no pagination, no modal, no control an event could come
    from.  And no step of the page looks at the error: with another error
    in the query result every event other than a new result leaves the same
    state. *)
Theorem error_renders_only_Error (st : State) (e : string) :
  error (result st) = Some e →
  IndexPage st = Paragraph "Error" ∧
  pagination_of (IndexPage st) = None ∧
  modal_shown (IndexPage st) = false ∧
  (∀ ev, is_user_event ev = true → step st ev = None) ∧
  (∀ ev e', is_fetched ev = false →
     useEffect (handle ev (with_error e' st)) =
     with_error e' (useEffect (handle ev st))).
Proof.
  intros He.
  assert (IndexPage st = Paragraph "Error") as Hv.
  { unfold IndexPage. rewrite He. done. }
  rewrite Hv. split; [done|]. split; [done|]. split; [done|]. split.
  - intros ev Hev. unfold step, enabled. rewrite Hv.
    destruct ev; done.
  - intros ev e' Hev. by rewrite handle_with_error, useEffect_with_error.
Qed.

(** *** The modal *)

(** C7, as amended. While the query has no error: the modal is shown exactly
    when a photo is selected; selecting a row of the table opens it on that
    photo's [url]; hiding it sets the selected photo back to [None]. *)
Theorem modal_follows_selected_photo (st : State) :
  error (result st) = None →
  (modal_shown (IndexPage st) = true ↔ selectedPhoto st ≠ None) ∧
  (∀ d photo, data (result st) = Some d → photo ∈ photos_data d →
     ∃ st', step st (SelectPhoto photo) = Some st' ∧
            selectedPhoto st' = Some photo ∧
            modal_shown (IndexPage st') = true ∧
            modal_image (IndexPage st') = Some (photo_url photo)) ∧
  (selectedPhoto st ≠ None →
     ∃ st', step st ModalHide = Some st' ∧
            selectedPhoto st' = None ∧
            modal_shown (IndexPage st') = false).
Proof.
  intros He. split; [|split].
  - unfold IndexPage. rewrite He. simpl. rewrite bool_decide_eq_true.
    rewrite <- not_eq_None_Some. done.
  - intros d photo Hd Hin. eexists. split.
    + apply step_Some. split; [|done].
      unfold enabled, IndexPage. rewrite He, Hd. by apply bool_decide_eq_true.
    + rewrite IndexPage_useEffect.
      destruct (useEffect_frame (handle (SelectPhoto photo) st))
        as (_ & _ & -> & _).
      unfold IndexPage. simpl. rewrite He. done.
  - intros Hsel. eexists. split.
    + apply step_Some. split; [|done].
      unfold enabled, IndexPage. rewrite He. simpl.
      apply bool_decide_eq_true. by apply not_eq_None_Some.
    + rewrite IndexPage_useEffect.
      destruct (useEffect_frame (handle ModalHide st)) as (_ & _ & -> & _).
      unfold IndexPage. simpl. rewrite He. done.
Qed.

(** *** The debounce timer *)

Lemma string_length_app (a b : string) :
  String.length (a +:+ b) = (String.length a + String.length b)%nat.
Proof. induction a as [|c a IH]; simpl; [done | congruence]. Qed.

Lemma append_cancel_r (a b s : string) : a +:+ s = b +:+ s → a = b.
Proof.
  revert b. induction a as [|c a IH]; intros [|c' b] H.
  - done.
  - apply (f_equal String.length) in H.
    rewrite !string_length_app in H. simpl in H. lia.
  - apply (f_equal String.length) in H.
    rewrite !string_length_app in H. simpl in H. lia.
  - injection H as -> H. f_equal. by apply IH.
Qed.

(** Two URLs of the search template are the same only for the same term. *)
Lemma search_url_inj (a b : string) : search_url a = search_url b → a = b.
Proof.
  unfold search_url. intros H. apply String.app_inj in H.
  by apply append_cancel_r in H.
Qed.

(** A handler leaves the effect's bookkeeping alone. *)
Lemma handle_bookkeeping ev st :
  deps (handle ev st) = deps st ∧
  handler (handle ev st) = handler st ∧
  next_handle (handle ev st) = next_handle st.
Proof.
  destruct ev; try done. simpl.
  destruct (timers st !! id) as [t|]; [|done].
  unfold timeout. case_decide; done.
Qed.

Lemma handle_tidy ev st :
  tidy st → enabled st ev = true → tidy (handle ev st).
Proof.
  intros [Hfresh Htimers] Hev.
  destruct ev; try (split; [exact Hfresh | exact Htimers]).
  - (* a timer fires *)
    simpl in *. destruct (timers st !! id) as [t|] eqn:Hid; [|done].
    assert (timers (clearTimeout id st) = ∅) as Hnone.
    { destruct Htimers as [Hempty | (t0 & Hone & _)].
      - rewrite Hempty in Hid. done.
      - rewrite Hone in Hid. apply lookup_singleton_Some in Hid as [<- _].
        simpl. rewrite Hone. apply delete_singleton_eq. }
    unfold timeout.
    destruct (decide (timer_search t = timer_q t));
      (split; [exact Hfresh | by left]).
  - (* time passes *)
    simpl in Hev. apply bool_decide_eq_true in Hev.
    split; [exact Hfresh|].
    destruct Htimers as [Hempty | (t0 & Hone & Hclosure & Hdue)]; [by left|].
    right. exists t0. simpl. repeat split; [done..|lia].
Qed.

(** The effect catches up, and when its dependencies changed the only
    pending timer is the one it has just set. *)
Lemma useEffect_in_sync st : tidy st → in_sync (useEffect st).
Proof.
  intros [Hfresh Htimers]. unfold useEffect, setTimeout.
  case_decide as Hdeps.
  - split; [done|]. exact (conj Hfresh Htimers).
  - split; [done|]. unfold tidy. simpl. split; [lia|].
    right. eexists. split.
    + destruct Htimers as [-> | (t0 & -> & _)].
      * by rewrite delete_empty, insert_empty.
      * by rewrite delete_singleton_eq, insert_empty.
    + simpl. split; [done | lia].
Qed.

Lemma useEffect_changed st :
  tidy st →
  deps st ≠ (search st, IndexPage_q (router_query st)) →
  handler (useEffect st) = next_handle st ∧
  timers (useEffect st) =
    {[next_handle st :=
        {| fire_at := now st + 500; timer_search := search st;
           timer_q := IndexPage_q (router_query st) |}]}.
Proof.
  intros [_ Htimers] Hdeps. unfold useEffect, setTimeout.
  case_decide; [done|]. simpl.
  split; [done|].
  destruct Htimers as [-> | (t0 & -> & _)].
  - by rewrite delete_empty, insert_empty.
  - by rewrite delete_singleton_eq, insert_empty.
Qed.

Lemma useEffect_unchanged st :
  deps st = (search st, IndexPage_q (router_query st)) → useEffect st = st.
Proof. intros Hdeps. unfold useEffect. case_decide; done. Qed.

Lemma mount_in_sync query r : in_sync (mount query r).
Proof.
  split; [done|]. split; simpl; [lia|].
  right. eexists. split; [by rewrite insert_empty|]. done.
Qed.

Lemma reachable_in_sync st : reachable st → in_sync st.
Proof.
  induction 1 as [query r | st ev st' _ [_ IH] Hstep].
  - apply mount_in_sync.
  - apply step_Some in Hstep as [Hev ->].
    apply useEffect_in_sync. by apply handle_tidy.
Qed.

(** What a step adds to the log of navigations. *)
Lemma step_pushed st ev st' :
  in_sync st →
  step st ev = Some st' →
  pushed st' = pushed st ∨
  (∃ p, pushed st' =
        (now st, page_url (IndexPage_q (router_query st)) p) :: pushed st) ∨
  (∃ id, ev = TimerFire id ∧
         search st ≠ IndexPage_q (router_query st) ∧
         pushed st' = (now st, search_url (search st)) :: pushed st).
Proof.
  intros [Hdeps [_ Htimers]] [Hev ->]%step_Some.
  destruct (useEffect_frame (handle ev st)) as (_ & _ & _ & _ & _ & ->).
  destruct ev; simpl; eauto.
  simpl in Hev. destruct (timers st !! id) as [t|] eqn:Hid; [|done].
  destruct Htimers as [Hempty | (t0 & Hone & Hclosure & _)].
  { rewrite Hempty in Hid. done. }
  rewrite Hone in Hid. apply lookup_singleton_Some in Hid as [<- <-].
  rewrite Hdeps in Hclosure. injection Hclosure as Hs Hq.
  unfold timeout. rewrite Hs, Hq.
  destruct (decide (search st = IndexPage_q (router_query st)));
    simpl; [by left|].
  right. right. eauto.
Qed.

Lemma step_Elapse st ms :
  in_sync st → 0 ≤ ms → step st (Elapse ms) = Some (set_now (now st + ms) st).
Proof.
  intros [Hdeps _] Hms. apply step_Some. split.
  - by apply bool_decide_eq_true.
  - simpl. by rewrite useEffect_unchanged.
Qed.

Lemma step_TimerFire_inv st id st' :
  step st (TimerFire id) = Some st' →
  ∃ t, timers st !! id = Some t ∧ fire_at t ≤ now st.
Proof.
  intros [Hev _]%step_Some. simpl in Hev.
  destruct (timers st !! id) as [t|]; [|done].
  apply bool_decide_eq_true in Hev. eauto.
Qed.

(** A pending timer that is due fires, and navigates to the search term
    exactly when the term differs from the URL's [q]. *)
Lemma step_TimerFire st id t :
  in_sync st →
  timers st !! id = Some t →
  fire_at t ≤ now st →
  ∃ st', step st (TimerFire id) = Some st' ∧
         now st' = now st ∧
         pushed st' =
           if decide (search st = IndexPage_q (router_query st))
           then pushed st
           else (now st, search_url (search st)) :: pushed st.
Proof.
  intros Hsync Hid Hdue.
  assert (enabled st (TimerFire id) = true) as Hev.
  { simpl. rewrite Hid. by apply bool_decide_eq_true. }
  eexists. split; [by apply step_Some|].
  destruct (useEffect_frame (handle (TimerFire id) st))
    as (_ & _ & _ & _ & -> & ->).
  destruct Hsync as [Hdeps [_ [Hempty | (t0 & Hone & Hclosure & _)]]].
  { rewrite Hempty in Hid. done. }
  rewrite Hone in Hid. apply lookup_singleton_Some in Hid as [<- <-].
  rewrite Hdeps in Hclosure. injection Hclosure as Hs Hq.
  simpl. rewrite Hone, lookup_singleton_eq. unfold timeout. rewrite Hs, Hq.
  destruct (decide (search st = IndexPage_q (router_query st))); done.
Qed.

(** A handler other than a firing timer leaves the pending timers alone, and
    no handler takes a navigation out of the log. *)
Lemma handle_timers ev st :
  (∀ id, ev ≠ TimerFire id) → timers (handle ev st) = timers st.
Proof. destruct ev; try done. intros H. by destruct (H id). Qed.

Lemma handle_pushed ev st x : x ∈ pushed st → x ∈ pushed (handle ev st).
Proof.
  intros Hx. destruct ev; simpl; try done; try (by apply list_elem_of_further).
  destruct (timers st !! id) as [t|]; [|done].
  unfold timeout. destruct (decide (timer_search t = timer_q t)); simpl;
    [done | by apply list_elem_of_further].
Qed.

Lemma step_debounced st ev st' :
  in_sync st → debounced st → step st ev = Some st' → debounced st'.
Proof.
  intros Hsync Hdone Hstep.
  pose proof Hstep as [Hev Hst']%step_Some.
  destruct (handle_bookkeeping ev st) as (Hd & _ & _).
  destruct (decide (deps (handle ev st) =
                    (search (handle ev st),
                     IndexPage_q (router_query (handle ev st))))) as [Hsame|Hnew].
  - (* the effect does not run again: [search] and [q] are as before *)
    rewrite useEffect_unchanged in Hst' by done.
    rewrite Hd in Hsame. destruct Hsync as [Hdeps Htidy].
    rewrite Hdeps, <- Hst' in Hsame. injection Hsame as Hs Hq.
    unfold debounced. rewrite <- Hs, <- Hq.
    destruct Hdone as [Heq | [Hpending | [t Hlog]]].
    + by left.
    + destruct (decide (search st = IndexPage_q (router_query st)));
        [by left|].
      right. destruct (is_timer ev) eqn:Htimer.
      * right. destruct ev; try discriminate.
        destruct (step_TimerFire_inv _ _ _ Hstep) as (t & Hid & Hdue).
        destruct (step_TimerFire st id t (conj Hdeps Htidy) Hid Hdue)
          as (st2 & Hstep2 & Hnow & Hp).
        rewrite Hstep in Hstep2. injection Hstep2 as <-.
        rewrite decide_False in Hp by done.
        exists (now st). rewrite Hp. apply list_elem_of_here.
      * left. rewrite Hst', handle_timers; [done|].
        intros id ->. discriminate.
    + right. right. exists t. rewrite Hst'. by apply handle_pushed.
  - (* the effect runs again and sets a timer *)
    right. left. rewrite Hst'.
    destruct (useEffect_changed (handle ev st)) as [_ ->]; [|done|].
    + apply handle_tidy; [by destruct Hsync | done].
    + apply (insert_non_empty ∅).
Qed.

Lemma reachable_debounced st : reachable st → debounced st.
Proof.
  induction 1 as [query r | st ev st' Hreach IH Hstep].
  - by left.
  - eapply step_debounced; [|done..]. by apply reachable_in_sync.
Qed.

(** C6. At every moment at most one debounce timer is pending; and a step
    that changes the search term or the URL's [q] leaves the timer of the
    previous run cleared and exactly one new timer pending, 500 ms ahead. *)
Theorem at_most_one_timer (st : State) :
  reachable st →
  (size (timers st) ≤ 1)%nat ∧
  ∀ ev st',
    step st ev = Some st' →
    (search st', IndexPage_q (router_query st')) ≠
      (search st, IndexPage_q (router_query st)) →
    timers st' !! handler st = None ∧
    ∃ t, timers st' = {[handler st' := t]} ∧ fire_at t = now st' + 500.
Proof.
  intros Hreach. pose proof (reachable_in_sync st Hreach) as Hsync.
  split.
  - destruct Hsync as [_ [_ [-> | (t & -> & _)]]].
    + rewrite map_size_empty. lia.
    + rewrite map_size_singleton. lia.
  - intros ev st' Hstep Hchanged.
    destruct Hsync as [Hdeps [Hfresh Htimers]].
    apply step_Some in Hstep as [Hev ->].
    destruct (useEffect_frame (handle ev st)) as (Hq & Hs & _ & _ & Hnow & _).
    rewrite Hq, Hs in Hchanged. rewrite Hnow.
    destruct (handle_bookkeeping ev st) as (Hd & Hh & Hn).
    destruct (useEffect_changed (handle ev st)) as [-> ->].
    { apply handle_tidy; [|done]. split; done. }
    { by rewrite Hd, Hdeps. }
    rewrite Hn. split.
    + apply lookup_singleton_ne. lia.
    + eexists. split; done.
Qed.

(** A URL of the page template is the URL of a search term only for that
    term: the text of a number has no [=] in it. *)
Lemma list_ascii_app (a b : string) :
  list_ascii_of_string (a +:+ b) =
  list_ascii_of_string a ++ list_ascii_of_string b.
Proof. induction a as [|c a IH]; [done|]. simpl. by rewrite IH. Qed.

Lemma list_ascii_inj (a b : string) :
  list_ascii_of_string a = list_ascii_of_string b → a = b.
Proof.
  intros H. rewrite <- (string_of_list_ascii_of_string a).
  rewrite <- (string_of_list_ascii_of_string b). by rewrite H.
Qed.

Lemma uint_chars d c :
  c ∈ list_ascii_of_string (NilEmpty.string_of_uint d) → is_digit c = true.
Proof.
  induction d as [|d IH|d IH|d IH|d IH|d IH|d IH|d IH|d IH|d IH|d IH];
    simpl; [by intros ?%elem_of_nil|..];
    (intros [->|?]%elem_of_cons; [done | by apply IH]).
Qed.

Lemma ToString_chars p c :
  c ∈ list_ascii_of_string (ToString p) → c ≠ "="%char.
Proof.
  destruct p as [|z].
  - simpl. rewrite !elem_of_cons, elem_of_nil. intros [->|[->|[->|[]]]]; done.
  - assert (∀ d, c ∈ list_ascii_of_string (NilZero.string_of_uint d) →
                 c ≠ "="%char) as Huint.
    { intros d Hc.
      assert (is_digit c = true) as Hdigit.
      { assert (NilZero.string_of_uint d = "0" ∨
                NilZero.string_of_uint d = NilEmpty.string_of_uint d)
          as [Hd|Hd] by (destruct d; auto); rewrite Hd in Hc.
        - apply elem_of_cons in Hc as [->|?%elem_of_nil]; done.
        - by apply (uint_chars d). }
      intros ->. done. }
    unfold ToString, NilZero.string_of_int.
    destruct (Z.to_int z) as [d|d]; [apply Huint|].
    simpl. intros [->|?]%elem_of_cons; [done | by apply (Huint d)].
Qed.

Lemma page_url_search_url q p v : page_url q p = search_url v → q = v.
Proof.
  unfold page_url, search_url. intros H%String.app_inj.
  apply (f_equal list_ascii_of_string) in H.
  rewrite !list_ascii_app in H.
  pose proof (ToString_chars p) as Hchars.
  assert (list_ascii_of_string (ToString p) ≠ []) as Hsome.
  { destruct p as [|z]; [done|].
    unfold ToString, NilZero.string_of_int, NilZero.string_of_uint.
    destruct (Z.to_int z) as [[]|[]]; done. }
  destruct (exists_last Hsome) as (l0 & c0 & HP).
  destruct (decide (l0 = [])) as [->|Hmore].
  - (* one character: the page is 1 *)
    rewrite HP in H. change ([] ++ [c0]) with [c0] in H.
    change (list_ascii_of_string "&page=1")
      with (list_ascii_of_string "&page=" ++ ["1"%char]) in H.
    rewrite !app_assoc in H. apply app_inj_tail in H as [H _].
    apply app_inj_2 in H as [H _]; [|done].
    by apply list_ascii_inj.
  - (* more: the last but one would be [=] *)
    destruct (exists_last Hmore) as (l1 & c1 & ->).
    rewrite HP in H, Hchars.
    change (list_ascii_of_string "&page=1")
      with (list_ascii_of_string "&page" ++ ["="%char] ++ ["1"%char]) in H.
    rewrite !app_assoc in H. apply app_inj_tail in H as [H _].
    apply app_inj_tail in H as [_ ->].
    destruct (Hchars "="%char); [|done].
    rewrite !elem_of_app, !elem_of_cons. auto.
Qed.

(** C1, as amended. The URL of a new search term is debounced, the reset of
    the page is not.  Whenever the search term differs from
    the URL's [q], a timer is pending or a navigation to the URL of the term
    has been made.  A pending timer carries the current search term and the
    URL's [q], is due within 500 ms and fires once it is due, not earlier;
    when it fires it navigates to [/?q=<search>&page=1] exactly when the
    term differs from [q].  A change of the search box navigates at once
    to page 1 of the URL's [q], which is not the URL of the new term when
    the term differs from [q]; it
    sets a timer 500 ms ahead that cannot fire earlier and that, fired after
    500 ms, pushes the new term.  No step other than a timer firing pushes
    a URL that is not built from the URL's current [q], and so none
    navigates to the URL of a term other than the URL's [q]. *)
Theorem search_is_debounced (st : State) :
  reachable st →
  (search st ≠ IndexPage_q (router_query st) →
     timers st ≠ ∅ ∨ ∃ t, (t, search_url (search st)) ∈ pushed st) ∧
  (∀ id t, timers st !! id = Some t →
     timer_search t = search st ∧
     timer_q t = IndexPage_q (router_query st) ∧
     fire_at t ≤ now st + 500 ∧
     (fire_at t ≤ now st → is_Some (step st (TimerFire id)))) ∧
  (∀ id st', step st (TimerFire id) = Some st' →
     ∃ t, timers st !! id = Some t ∧ fire_at t ≤ now st ∧
          pushed st' =
            if decide (search st = IndexPage_q (router_query st))
            then pushed st
            else (now st, search_url (search st)) :: pushed st) ∧
  (∀ v st', step st (SearchChange v) = Some st' →
     search st' = v ∧
     pushed st' =
       (now st, search_url (IndexPage_q (router_query st))) :: pushed st ∧
     (v ≠ IndexPage_q (router_query st) →
        search_url (IndexPage_q (router_query st)) ≠ search_url v) ∧
     (v ≠ search st →
        timers st' =
          {[handler st' :=
              {| fire_at := now st + 500; timer_search := v;
                 timer_q := IndexPage_q (router_query st') |}]} ∧
        (∀ ms id, ms < 500 → run st' [Elapse ms; TimerFire id] = None) ∧
        ∃ st'', run st' [Elapse 500; TimerFire (handler st')] = Some st'' ∧
                pushed st'' =
                  if decide (v = IndexPage_q (router_query st'))
                  then pushed st'
                  else (now st + 500, search_url v) :: pushed st')) ∧
  (∀ ev st', step st ev = Some st' →
     pushed st' = pushed st ∨
     (∃ p, pushed st' =
           (now st, page_url (IndexPage_q (router_query st)) p) :: pushed st) ∨
     (∃ id, ev = TimerFire id ∧
            search st ≠ IndexPage_q (router_query st) ∧
            pushed st' = (now st, search_url (search st)) :: pushed st)) ∧
  (∀ ev st' v t, step st ev = Some st' →
     is_timer ev = false →
     v ≠ IndexPage_q (router_query st) →
     (t, search_url v) ∈ pushed st' → (t, search_url v) ∈ pushed st).
Proof.
  intros Hreach. pose proof (reachable_in_sync st Hreach) as Hsync.
  split; [|split; [|split; [|split; [|split]]]].
  - intros Hdiff. by destruct (reachable_debounced st Hreach) as [?|?].
  - intros id t Hid.
    pose proof Hsync as [Hdeps [_ [Hempty | (t0 & Hone & Hclosure & Hdue)]]].
    { rewrite Hempty in Hid. done. }
    pose proof Hid as Hid'.
    rewrite Hone in Hid'. apply lookup_singleton_Some in Hid' as [_ <-].
    rewrite Hdeps in Hclosure. injection Hclosure as Hs Hq.
    split; [done|]. split; [done|]. split; [done|].
    intros Hnow.
    destruct (step_TimerFire st id t0 Hsync Hid Hnow) as (st' & -> & _).
    done.
  - intros id st' Hstep.
    destruct (step_TimerFire_inv _ _ _ Hstep) as (t & Hid & Hdue).
    destruct (step_TimerFire st id t Hsync Hid Hdue) as (st2 & Hstep2 & _ & Hp).
    rewrite Hstep in Hstep2. injection Hstep2 as <-. eauto.
  - intros v st' Hstep.
    assert (reachable st') as Hreach' by (by eapply reachable_step).
    pose proof (reachable_in_sync st' Hreach') as Hsync'.
    apply step_Some in Hstep as [Hev Hst'].
    destruct (useEffect_frame (handle (SearchChange v) st))
      as (Hq & Hs & _ & _ & Hnow & Hp).
    rewrite <- Hst' in Hq, Hs, Hnow, Hp. simpl in Hs, Hnow, Hp.
    split; [done|]. split; [done|]. split.
    { intros Hv Heq. apply search_url_inj in Heq. done. }
    intros Hv.
    destruct (handle_bookkeeping (SearchChange v) st) as (Hd & Hh & Hn).
    destruct (useEffect_changed (handle (SearchChange v) st)) as [Hh' Ht'].
    { apply handle_tidy; [|done]. by destruct Hsync. }
    { rewrite Hd. destruct Hsync as [-> _]. simpl. congruence. }
    rewrite <- Hst' in Hh', Ht'.
    assert (timers st' =
            {[handler st' :=
                {| fire_at := now st + 500; timer_search := v;
                   timer_q := IndexPage_q (router_query st') |}]}) as Htimers.
    { rewrite Ht', Hh', Hq. done. }
    split; [done|]. split.
    + intros ms id Hms. cbn [run].
      destruct (decide (0 ≤ ms)) as [Hpos|Hneg].
      * rewrite step_Elapse by done.
        unfold step. simpl. rewrite Htimers.
        destruct (decide (id = handler st')) as [->|Hid].
        -- rewrite lookup_singleton_eq. simpl.
           rewrite bool_decide_eq_false_2 by lia. done.
        -- rewrite lookup_singleton_ne by done. done.
      * unfold step. simpl. rewrite bool_decide_eq_false_2 by done. done.
    + cbn [run]. rewrite step_Elapse by (done || lia).
      destruct (step_TimerFire (set_now (now st' + 500) st') (handler st')
                  {| fire_at := now st + 500; timer_search := v;
                     timer_q := IndexPage_q (router_query st') |})
        as (st'' & Hstep'' & _ & Hp'').
      { destruct Hsync' as [Hdeps' [Hfresh' Htimers']].
        split; [done|]. split; [done|].
        right. eexists. split; [exact Htimers|].
        split; [simpl; by rewrite Hdeps', Hs|]. simpl. lia. }
      { simpl. rewrite Htimers. apply lookup_singleton_eq. }
      { simpl. lia. }
      exists st''. rewrite Hstep''. split; [done|].
      rewrite Hp''. simpl. rewrite Hs, Hnow. done.
  - intros ev st' Hstep. by apply step_pushed.
  - intros ev st' v t Hstep Hev Hv Hin.
    destruct (step_pushed st ev st' Hsync Hstep)
      as [Hp | [[p Hp] | (id & -> & _)]]; [by rewrite <- Hp | | done].
    rewrite Hp in Hin. apply elem_of_cons in Hin as [Heq|Hin]; [|done].
    apply (f_equal snd) in Heq. cbn [snd] in Heq.
    symmetry in Heq. apply page_url_search_url in Heq. by destruct Hv.
Qed.

(** ** More of the page *)

(** *** The last page *)

(** Without data, or with no photo at all, the last page is 0; with photos
    it is the number of pages of [LIST_LIMIT] photos that hold them all. *)
Theorem lastPage_counts_pages (r : QueryResult) :
  0 < LIST_LIMIT →
  (data r = None → lastPage r = 0) ∧
  (∀ d, data r = Some d → meta_totalCount d = 0 → lastPage r = 0) ∧
  (∀ d, data r = Some d → 0 < meta_totalCount d →
     1 ≤ lastPage r ∧
     LIST_LIMIT * (lastPage r - 1) < meta_totalCount d ≤
       LIST_LIMIT * lastPage r).
Proof.
  intros Hlimit. unfold lastPage. split; [|split].
  - intros ->. done.
  - intros d -> ->. done.
  - intros d -> Hd.
    assert (truthy (Int (meta_totalCount d)) = true) as ->.
    { simpl. apply negb_true_iff, Z.eqb_neq. lia. }
    pose proof (ceil_div_bounds (meta_totalCount d) LIST_LIMIT Hlimit).
    split; [nia | done].
Qed.

(** *** The numbered buttons *)

Lemma range_ascending s e :
  s ≤ e → Lodash.range (Int s) (Int e) = seqZ s (e - s).
Proof.
  intros Hse. unfold Lodash.range, seqZ. simpl.
  destruct (Z.ltb_spec s e).
  - apply map_ext. intros i. lia.
  - replace (e - s) with 0 by lia. replace (s - e) with 0 by lia. done.
Qed.

Lemma elem_of_range_descending s e n :
  e < s → n ∈ Lodash.range (Int s) (Int e) ↔ e < n ≤ s.
Proof.
  intros Hes. unfold Lodash.range. simpl.
  destruct (Z.ltb_spec s e); [lia|].
  rewrite list_elem_of_In, in_map_iff. setoid_rewrite in_seq. split.
  - intros (i & <- & Hi). lia.
  - intros Hn. exists (Z.to_nat (s - n)). lia.
Qed.

Lemma fst_tagged {A} (f : Z → A) (l : list Z) :
  (map (fun n => (n, f n)) l).*1 = l.
Proof. induction l as [|n l IH]; [done|]. simpl. f_equal. exact IH. Qed.

Lemma elem_of_items page last n active :
  (n, active) ∈ items (Pagination_view page last) →
  n ∈ (items (Pagination_view page last)).*1 ∧
  active = strict_eq (Int n) page.
Proof.
  simpl. intros Hin. split.
  - rewrite list_elem_of_fmap. by exists (n, active).
  - apply list_elem_of_fmap in Hin as (m & [= -> ->] & _). done.
Qed.

(** What the render shows of the pagination bar. *)
Lemma pagination_of_IndexPage st bar :
  pagination_of (IndexPage st) = Some bar →
  error (result st) = None ∧
  bar = Pagination_view (IndexPage_page (router_query st))
          (lastPage (result st)).
Proof.
  unfold IndexPage. destruct (error (result st)); [discriminate|].
  destruct (data (result st)) as [d|]; [|discriminate].
  cbn -[truthy lastPage Pagination_view].
  destruct (truthy (Int (meta_totalCount d))); [|discriminate].
  intros [= <-]. done.
Qed.

(** On a page between 1 and the last page, the numbered buttons are the
    pages from two before the current one to two after it, cut at 1 and at
    the last page, in ascending order: the button at position [i] is page
    [max 1 (p - 2) + i].  The current page is among them and is the only
    active one; there are at most five. *)
Theorem numbered_buttons_window (st : State) (bar : PaginationView) (p : Z) :
  pagination_of (IndexPage st) = Some bar →
  IndexPage_page (router_query st) = Int p →
  1 ≤ p ≤ lastPage (result st) →
  (∀ (i : nat) n,
     (items bar).*1 !! i = Some n ↔
     n = Z.max 1 (p - 2) + Z.of_nat i ∧
     n ≤ Z.min (lastPage (result st)) (p + 2)) ∧
  p ∈ (items bar).*1 ∧
  (∀ n active, (n, active) ∈ items bar → (active = true ↔ n = p)) ∧
  (length (items bar) ≤ 5)%nat.
Proof.
  intros [_ ->]%pagination_of_IndexPage Hpage Hp. rewrite Hpage.
  set (last := lastPage (result st)) in *.
  assert ((items (Pagination_view (Int p) last)).*1 =
          seqZ (Z.max 1 (p - 2)) (Z.min (last + 1) (p + 3) - Z.max 1 (p - 2)))
    as Hpages.
  { simpl. rewrite fst_tagged. apply range_ascending. lia. }
  split; [|split; [|split]].
  - intros i n. rewrite Hpages, lookup_seqZ. lia.
  - rewrite Hpages, elem_of_seqZ. lia.
  - intros n active [_ ->]%elem_of_items. simpl. rewrite Z.eqb_eq. done.
  - rewrite <- (length_fmap fst), Hpages, length_seqZ. lia.
Qed.

(** What the render returns is [IndexPage]. *)
Lemma render_Some st v : render st = Some v → v = IndexPage st.
Proof.
  unfold render. destruct (pagination_of (IndexPage st)); [|congruence].
  destruct (Lodash.fits _ _); congruence.
Qed.

(** The length of the array of numbered buttons on a page beyond the last
    page. *)
Lemma length_of_beyond_last p last :
  0 ≤ last → last + 3 ≤ p →
  Lodash.length_of (Math_max (Int 1) (sub (Int p) (Int 2)))
    (Math_min (add (Int last) (Int 1)) (add (Int p) (Int 3))) =
  p - last - 3.
Proof. intros Hlast Hp. unfold Lodash.length_of. simpl. lia. Qed.

(** On a page three or more beyond the last page, when the render returns,
    the page is at most 2^32 + 2 beyond the last page, and the
    numbered buttons are
    the pages from two before the current one down to two after the last
    page: every one of them lies beyond the last page, and none is
    active. *)
Theorem numbered_buttons_beyond_last (st : State) (v : View)
  (bar : PaginationView) (p : Z) :
  render st = Some v →
  pagination_of v = Some bar →
  IndexPage_page (router_query st) = Int p →
  safe_integer (p + 3) →
  0 ≤ lastPage (result st) →
  lastPage (result st) + 3 ≤ p →
  p - lastPage (result st) - 3 ≤ Lodash.MAX_ARRAY_LENGTH ∧
  (∀ n, n ∈ (items bar).*1 ↔ lastPage (result st) + 1 < n ≤ p - 2) ∧
  (∀ n active, (n, active) ∈ items bar →
     lastPage (result st) < n ∧ active = false).
Proof.
  intros Hrender Hbar Hpage _ Hlast Hp.
  pose proof (render_Some st v Hrender) as ->.
  assert (p - lastPage (result st) - 3 ≤ Lodash.MAX_ARRAY_LENGTH) as Hfits.
  { revert Hrender. unfold render. rewrite Hbar, Hpage.
    unfold Lodash.fits. rewrite length_of_beyond_last by done.
    destruct (Z.leb_spec (p - lastPage (result st) - 3)
                Lodash.MAX_ARRAY_LENGTH); [done | discriminate]. }
  split; [done|].
  apply pagination_of_IndexPage in Hbar as [_ ->]. rewrite Hpage.
  set (last := lastPage (result st)) in *.
  assert (∀ n, n ∈ (items (Pagination_view (Int p) last)).*1 ↔
               last + 1 < n ≤ p - 2) as Hpages.
  { intros n. simpl. rewrite fst_tagged.
    replace (Z.max 1 (p - 2)) with (p - 2) by lia.
    replace (Z.min (last + 1) (p + 3)) with (last + 1) by lia.
    destruct (decide (last + 1 = p - 2)) as [Heq|Hne].
    - rewrite Heq, range_ascending by lia.
      rewrite elem_of_seqZ. lia.
    - rewrite elem_of_range_descending by lia. lia. }
  split; [done|].
  intros n active [Hn ->]%elem_of_items. apply Hpages in Hn.
  split; [lia|]. simpl. apply Z.eqb_neq. lia.
Qed.


(** *** The variables of the query and the page's own values *)

(** The variables of [useQuery] carry the page's own [q], and its own
    [page] unless the [page] parameter is the empty string. *)
Theorem useQuery_variables_follow_page (query : gmap string value) :
  vars_q (useQuery_variables query) = IndexPage_q query ∧
  (query !! "page" ≠ Some (Str "") →
   vars_page (useQuery_variables query) = IndexPage_page query).
Proof.
  split.
  - unfold IndexPage_q. simpl.
    destruct (query !! "q") as [[[|c r]|l]|]; done.
  - intros Hpage. unfold IndexPage_page. simpl.
    destruct (query !! "page") as [[[|c r]|l]|]; done.
Qed.

(** *** Steps in full *)

Lemma set_now_in_sync st ms :
  in_sync st → 0 ≤ ms → in_sync (set_now (now st + ms) st).
Proof.
  intros (Hdeps & Hfresh & Htimers) Hms. split; [done|]. split; [done|].
  destruct Htimers as [Hempty | (t & Hone & Hclosure & Hdue)]; [by left|].
  right. exists t. simpl. split; [done|]. split; [done|]. lia.
Qed.

(** A step that changes [search] or [q]: the effect runs again, and the
    timer it sets is the only one pending. *)
Lemma step_changed st ev :
  in_sync st →
  enabled st ev = true →
  (search (handle ev st), IndexPage_q (router_query (handle ev st))) ≠
    (search st, IndexPage_q (router_query st)) →
  ∃ st',
    step st ev = Some st' ∧ in_sync st' ∧
    router_query st' = router_query (handle ev st) ∧
    search st' = search (handle ev st) ∧
    result st' = result (handle ev st) ∧
    now st' = now (handle ev st) ∧
    pushed st' = pushed (handle ev st) ∧
    next_handle st' = next_handle st + 1 ∧
    timers st' =
      {[next_handle st :=
          {| fire_at := now (handle ev st) + 500;
             timer_search := search (handle ev st);
             timer_q := IndexPage_q (router_query (handle ev st)) |}]}.
Proof.
  intros Hsync Hev Hchanged. exists (useEffect (handle ev st)).
  assert (tidy (handle ev st)) as Htidy.
  { apply handle_tidy; [by destruct Hsync | done]. }
  destruct (handle_bookkeeping ev st) as (Hd & Hh & Hn).
  destruct (useEffect_frame (handle ev st)) as (Hq & Hs & _ & Hr & Hnow & Hp).
  destruct (useEffect_changed (handle ev st)) as [_ Ht]; [done|..].
  { rewrite Hd. by destruct Hsync as [-> _]. }
  split; [by apply step_Some|]. split; [by apply useEffect_in_sync|].
  rewrite Ht, Hn. repeat (split; [done|]). split; [|done].
  unfold useEffect, setTimeout. rewrite decide_False; [simpl; lia|].
  rewrite Hd. by destruct Hsync as [-> _].
Qed.

(** A step that changes neither: the effect does not run. *)
Lemma step_unchanged st ev :
  in_sync st →
  enabled st ev = true →
  (search (handle ev st), IndexPage_q (router_query (handle ev st))) =
    (search st, IndexPage_q (router_query st)) →
  step st ev = Some (handle ev st) ∧ in_sync (handle ev st).
Proof.
  intros Hsync Hev Hsame.
  destruct (handle_bookkeeping ev st) as (Hd & _ & _).
  assert (useEffect (handle ev st) = handle ev st) as Hrun.
  { apply useEffect_unchanged. rewrite Hd, Hsame. by destruct Hsync. }
  split.
  - apply step_Some. by rewrite Hrun.
  - rewrite <- Hrun. apply useEffect_in_sync, handle_tidy; [|done].
    by destruct Hsync.
Qed.

(** The only pending timer fires when the search term is not the URL's
    [q]. *)
Lemma step_fire_pushes st id t :
  in_sync st →
  timers st !! id = Some t →
  fire_at t ≤ now st →
  search st ≠ IndexPage_q (router_query st) →
  ∃ st',
    step st (TimerFire id) = Some st' ∧ in_sync st' ∧
    search st' = search st ∧
    result st' = result st ∧
    router_query st' = resolve (search_url (search st)) ∧
    pushed st' = (now st, search_url (search st)) :: pushed st.
Proof.
  intros Hsync Hid Hdue Hdiff.
  assert (enabled st (TimerFire id) = true) as Hev.
  { simpl. rewrite Hid. by apply bool_decide_eq_true. }
  assert (handle (TimerFire id) st =
          push (search_url (search st)) (clearTimeout id st)) as Hhandle.
  { pose proof Hsync as [Hdeps [_ [Hempty | (t0 & Hone & Hclosure & _)]]].
    { rewrite Hempty in Hid. done. }
    pose proof Hid as Hid'. rewrite Hone in Hid'.
    apply lookup_singleton_Some in Hid' as [_ <-].
    rewrite Hdeps in Hclosure. injection Hclosure as Hs Hq.
    simpl. rewrite Hid. unfold timeout. rewrite Hs, Hq.
    by rewrite decide_False. }
  exists (useEffect (handle (TimerFire id) st)).
  destruct (useEffect_frame (handle (TimerFire id) st))
    as (-> & -> & _ & -> & _ & ->).
  split; [by apply step_Some|].
  split; [apply useEffect_in_sync, handle_tidy; [by destruct Hsync | done]|].
  rewrite Hhandle. done.
Qed.

(** The only pending timer fires when the search term is the URL's [q]:
    nothing happens, and no timer is left. *)
Lemma step_fire_idle st id t :
  in_sync st →
  timers st !! id = Some t →
  fire_at t ≤ now st →
  search st = IndexPage_q (router_query st) →
  ∃ st',
    step st (TimerFire id) = Some st' ∧ in_sync st' ∧
    search st' = search st ∧
    result st' = result st ∧
    router_query st' = router_query st ∧
    pushed st' = pushed st ∧
    timers st' = ∅.
Proof.
  intros Hsync Hid Hdue Hsame.
  assert (enabled st (TimerFire id) = true) as Hev.
  { simpl. rewrite Hid. by apply bool_decide_eq_true. }
  pose proof Hsync as [Hdeps [_ [Hempty | (t0 & Hone & Hclosure & _)]]].
  { rewrite Hempty in Hid. done. }
  pose proof Hid as Hid'. rewrite Hone in Hid'.
  apply lookup_singleton_Some in Hid' as [<- <-].
  rewrite Hdeps in Hclosure. injection Hclosure as Hs Hq.
  assert (handle (TimerFire (handler st)) st = clearTimeout (handler st) st)
    as Hhandle.
  { simpl. rewrite Hid. unfold timeout. rewrite Hs, Hq.
    by rewrite decide_True. }
  destruct (step_unchanged st (TimerFire (handler st)) Hsync Hev)
    as [Hstep Hsync'].
  { rewrite Hhandle. done. }
  rewrite Hhandle in Hstep, Hsync'.
  exists (clearTimeout (handler st) st). repeat (split; [done|]).
  simpl. rewrite Hone. apply delete_singleton_eq.
Qed.

(** *** What does not touch the debounce *)

(** Selecting a photo, hiding the modal, a new query result and the passing
    of time neither navigate nor change the search box, the URL's query or
    the pending timer. *)
Theorem quiet_events_leave_the_debounce_alone (st st' : State) (ev : Event) :
  reachable st →
  is_quiet ev = true →
  step st ev = Some st' →
  router_query st' = router_query st ∧
  search st' = search st ∧
  timers st' = timers st ∧
  handler st' = handler st ∧
  pushed st' = pushed st.
Proof.
  intros Hsync%reachable_in_sync Hquiet Hstep.
  pose proof Hstep as [Hev _]%step_Some.
  destruct (step_unchanged st ev Hsync Hev) as [Hstep' _].
  { destruct ev; done. }
  rewrite Hstep in Hstep'. injection Hstep' as ->.
  destruct ev; done.
Qed.

(** *** Typing on *)

(** A second change of the search box clears the timer of the first, which
    has not fired: only the timer of the second term is pending, due 500 ms
    after the second change, and the navigations made are the two to page 1
    of the URL's [q] of the moment, none to the first term. *)
Theorem typing_on_restarts_the_timer (st : State) (v1 v2 : string) (ms : Z) :
  reachable st →
  error (result st) = None →
  v1 ≠ search st →
  v2 ≠ v1 →
  0 ≤ ms →
  ∃ st2,
    run st [SearchChange v1; Elapse ms; SearchChange v2] = Some st2 ∧
    search st2 = v2 ∧
    timers st2 =
      {[next_handle st + 1 :=
          {| fire_at := now st + ms + 500; timer_search := v2;
             timer_q := IndexPage_q (router_query st2) |}]} ∧
    pushed st2 =
      (now st + ms,
       search_url
         (IndexPage_q
            (resolve (search_url (IndexPage_q (router_query st))))))
      :: (now st, search_url (IndexPage_q (router_query st)))
      :: pushed st.
Proof.
  intros Hsync%reachable_in_sync Herr Hv1 Hv2 Hms.
  assert (∀ s v, error (result s) = None →
                 enabled s (SearchChange v) = true) as Hbox.
  { intros s v He. unfold enabled, IndexPage. by rewrite He. }
  destruct (step_changed st (SearchChange v1) Hsync (Hbox _ _ Herr))
    as (st1 & Hstep1 & Hsync1 & Hq1 & Hs1 & Hr1 & Hnow1 & Hp1 & Hn1 & _).
  { simpl. congruence. }
  simpl in Hq1, Hs1, Hr1, Hnow1, Hp1.
  pose proof (set_now_in_sync st1 ms Hsync1 Hms) as Hsync1'.
  destruct (step_changed (set_now (now st1 + ms) st1) (SearchChange v2)
              Hsync1')
    as (st2 & Hstep2 & _ & Hq2 & Hs2 & _ & Hnow2 & Hp2 & _ & Ht2).
  { apply Hbox. simpl. by rewrite Hr1. }
  { simpl. congruence. }
  simpl in Hq2, Hs2, Hnow2, Hp2, Ht2.
  exists st2. cbn [run].
  rewrite Hstep1, (step_Elapse st1 ms Hsync1 Hms), Hstep2.
  split; [done|]. split; [done|]. split.
  - rewrite Ht2, Hn1, Hnow1, Hq2. done.
  - rewrite Hp2, Hp1, Hq1, Hnow1. done.
Qed.

(** *** The URL changed from outside *)

(** The search box does not follow the URL.  When the router's [q] changes
    from outside (the back button) to something else than the search term,
    the term stays in the box, and after 500 ms the timer navigates back to
    the URL of the term. *)
Theorem route_change_is_overridden (st : State) (query : gmap string value) :
  reachable st →
  IndexPage_q query ≠ IndexPage_q (router_query st) →
  IndexPage_q query ≠ search st →
  ∃ st',
    run st [RouteChange query; Elapse 500; TimerFire (next_handle st)] =
      Some st' ∧
    search st' = search st ∧
    router_query st' = resolve (search_url (search st)) ∧
    pushed st' = (now st + 500, search_url (search st)) :: pushed st.
Proof.
  intros Hsync%reachable_in_sync Hq Hs.
  destruct (step_changed st (RouteChange query) Hsync)
    as (st1 & Hstep1 & Hsync1 & Hq1 & Hs1 & _ & Hnow1 & Hp1 & _ & Ht1);
    [done | simpl; congruence |].
  simpl in Hq1, Hs1, Hnow1, Hp1, Ht1.
  pose proof (set_now_in_sync st1 500 Hsync1 ltac:(lia)) as Hsync1'.
  destruct (step_fire_pushes (set_now (now st1 + 500) st1) (next_handle st)
              {| fire_at := now st + 500; timer_search := search st;
                 timer_q := IndexPage_q query |} Hsync1')
    as (st' & Hstep' & _ & Hs' & _ & Hq' & Hp').
  { simpl. rewrite Ht1. apply lookup_singleton_eq. }
  { simpl. lia. }
  { simpl. rewrite Hs1, Hq1. done. }
  simpl in Hs', Hq', Hp'.
  exists st'. cbn [run].
  rewrite Hstep1, (step_Elapse st1 500 Hsync1 ltac:(lia)), Hstep'.
  split; [done|]. split; [by rewrite Hs', Hs1|]. split.
  - by rewrite Hq', Hs1.
  - by rewrite Hp', Hs1, Hp1, Hnow1.
Qed.

(** *** The first render *)

(** The page starts with the URL's [q] in the search box and one timer,
    which cannot fire before 500 ms and, when it fires, navigates nowhere
    and leaves no timer behind. *)
Theorem mount_timer_does_nothing (query : gmap string value)
  (r : QueryResult) :
  search (mount query r) = IndexPage_q query ∧
  pushed (mount query r) = [] ∧
  (∀ ms id, ms < 500 → run (mount query r) [Elapse ms; TimerFire id] = None) ∧
  ∃ st',
    run (mount query r) [Elapse 500; TimerFire 1] = Some st' ∧
    router_query st' = query ∧
    search st' = IndexPage_q query ∧
    pushed st' = [] ∧
    timers st' = ∅.
Proof.
  pose proof (mount_in_sync query r) as Hsync.
  assert (timers (mount query r) =
          {[1 := {| fire_at := 500; timer_search := IndexPage_q query;
                    timer_q := IndexPage_q query |}]}) as Htimers.
  { simpl. by rewrite insert_empty. }
  split; [done|]. split; [done|]. split.
  - intros ms id Hms. cbn [run].
    destruct (decide (0 ≤ ms)) as [Hpos|Hneg].
    + rewrite step_Elapse by done. unfold step.
      cbn [enabled set_now timers now]. rewrite Htimers.
      destruct (decide (id = 1)) as [->|Hid].
      * rewrite lookup_singleton_eq. cbn [fire_at].
        change (now (mount query r)) with 0.
        rewrite bool_decide_eq_false_2 by lia. done.
      * rewrite lookup_singleton_ne by done. done.
    + unfold step. cbn [enabled]. rewrite bool_decide_eq_false_2 by done. done.
  - cbn [run]. rewrite step_Elapse by done.
    destruct (step_fire_idle (set_now (now (mount query r) + 500)
                                (mount query r)) 1
                {| fire_at := 500; timer_search := IndexPage_q query;
                   timer_q := IndexPage_q query |})
      as (st' & -> & _ & Hs & _ & Hq & Hp & Ht).
    { by apply set_now_in_sync. }
    { cbn [set_now timers]. rewrite Htimers. apply lookup_singleton_eq. }
    { simpl. lia. }
    { done. }
    exists st'. done.
Qed.

End IndexPage.

(** ** The page over the router's reading of URLs *)

(** *** Strings without separators *)

Lemma all_app P a b : Url.all P (a +:+ b) = Url.all P a && Url.all P b.
Proof.
  induction a as [|c a IH]; [done|]. simpl.
  rewrite IH. by rewrite andb_assoc.
Qed.

Lemma all_impl (P Q : ascii → bool) s :
  (∀ c, P c = true → Q c = true) → Url.all P s = true → Url.all Q s = true.
Proof.
  intros HPQ. induction s as [|c r IH]; [done|]. simpl.
  intros [Hc Hr]%andb_true_iff. rewrite (HPQ c Hc). by apply IH.
Qed.

Lemma strip_all s :
  Url.all (fun c => negb (Url.is_tab_or_newline c)) s = true →
  Url.strip s = s.
Proof.
  induction s as [|c r IH]; [done|]. simpl.
  intros [Hc Hr]%andb_true_iff. apply negb_true_iff in Hc. rewrite Hc.
  by rewrite IH.
Qed.

Lemma break_all sep s :
  Url.all (fun c => negb (Ascii.eqb c sep)) s = true →
  Url.break sep s = (s, None).
Proof.
  induction s as [|c r IH]; [done|]. simpl.
  intros [Hc Hr]%andb_true_iff. apply negb_true_iff in Hc. rewrite Hc.
  by rewrite IH.
Qed.

Lemma split_all sep s :
  Url.all (fun c => negb (Ascii.eqb c sep)) s = true →
  Url.split sep s = [s].
Proof.
  induction s as [|c r IH]; [done|]. simpl.
  intros [Hc Hr]%andb_true_iff. apply negb_true_iff in Hc. rewrite Hc.
  by rewrite IH.
Qed.

Lemma split_app sep a b :
  Url.all (fun c => negb (Ascii.eqb c sep)) a = true →
  Url.split sep (a +:+ String sep b) = a :: Url.split sep b.
Proof.
  induction a as [|c a IH].
  - intros _. change ("" +:+ String sep b) with (String sep b).
    simpl. by rewrite Ascii.eqb_refl.
  - simpl.
    intros [Hc Ha]%andb_true_iff. apply negb_true_iff in Hc. rewrite Hc.
    by rewrite IH.
Qed.

Lemma plus_to_space_all s :
  Url.all (fun c => negb (Ascii.eqb c "+")) s = true →
  Url.plus_to_space s = s.
Proof.
  induction s as [|c r IH]; [done|]. simpl.
  intros [Hc Hr]%andb_true_iff. apply negb_true_iff in Hc. rewrite Hc.
  by rewrite IH.
Qed.

Lemma percent_decode_all s :
  Url.all (fun c => negb (Ascii.eqb c "%")) s = true →
  Url.percent_decode s = s.
Proof.
  induction s as [|c r IH]; [done|]. cbn [Url.all Url.percent_decode].
  intros [Hc Hr]%andb_true_iff. apply negb_true_iff in Hc. rewrite Hc.
  rewrite (IH Hr). destruct r as [|h [|l r']]; done.
Qed.

Lemma decode_safe s : Url.safe s = true → Url.decode s = s.
Proof.
  intros Hs. unfold Url.decode.
  rewrite plus_to_space_all, percent_decode_all; [done|..].
  - revert Hs. apply all_impl. intros c. unfold Url.is_reserved.
    destruct (Ascii.eqb c "%"); [|done]. rewrite !orb_true_r. done.
  - revert Hs. apply all_impl. intros c. unfold Url.is_reserved.
    destruct (Ascii.eqb c "+"); [|done]. rewrite !orb_true_r. done.
Qed.

(** *** Reading back a pushed URL *)

Lemma uint_safe d : Url.safe (NilEmpty.string_of_uint d) = true.
Proof. induction d; [done|..]; exact IHd. Qed.

Lemma ToString_safe p : Url.safe (ToString p) = true.
Proof.
  destruct p as [|z]; [done|].
  assert (∀ d, Url.safe (NilZero.string_of_uint d) = true) as Huint.
  { intros d. destruct d; [done|..];
      (rewrite string_of_uint_nonnil by done); apply uint_safe. }
  unfold ToString, NilZero.string_of_int.
  destruct (Z.to_int z) as [d|d]; [apply Huint|].
  change (Url.safe (NilZero.string_of_uint d) = true). apply Huint.
Qed.

Lemma ToString_truthy p : truthy_string (ToString p) = true.
Proof.
  destruct p as [|z]; [done|].
  unfold ToString, NilZero.string_of_int, NilZero.string_of_uint.
  destruct (Z.to_int z) as [[]|[]]; done.
Qed.

Lemma safe_no_tab s :
  Url.safe s = true →
  Url.all (fun c => negb (Url.is_tab_or_newline c)) s = true.
Proof.
  apply all_impl. intros c. unfold Url.is_reserved.
  destruct (Url.is_tab_or_newline c); done.
Qed.

Lemma safe_no_char (x : ascii) s :
  Url.is_reserved x = true →
  Url.safe s = true →
  Url.all (fun c => negb (Ascii.eqb c x)) s = true.
Proof.
  intros Hx. apply all_impl. intros c Hc.
  destruct (Ascii.eqb_spec c x) as [->|]; [|done].
  by rewrite Hx in Hc.
Qed.

Lemma break_app sep a b :
  Url.all (fun c => negb (Ascii.eqb c sep)) a = true →
  Url.break sep (a +:+ String sep b) = (a, Some b).
Proof.
  induction a as [|c a IH].
  - intros _. change ("" +:+ String sep b) with (String sep b).
    simpl. by rewrite Ascii.eqb_refl.
  - simpl. intros [Hc Ha]%andb_true_iff. apply negb_true_iff in Hc.
    rewrite Hc. by rewrite IH.
Qed.

Lemma pair_of_safe name v :
  Url.all (fun c => negb (Ascii.eqb c "=")) name = true →
  Url.safe name = true →
  Url.safe v = true →
  Url.pair_of (name +:+ String "=" v) = (name, v).
Proof.
  intros Hname Hsafe Hv. unfold Url.pair_of.
  rewrite break_app by done. simpl. by rewrite !decode_safe.
Qed.

(** The router reads the URL of the page template back as it was written,
    when the search term has no reserved character. *)
Lemma query_of_page_url q P :
  Url.safe q = true →
  Url.safe P = true →
  Url.query_of ("/?q=" +:+ q +:+ "&page=" +:+ P) =
  <["page" := Str P]> {["q" := Str q]}.
Proof.
  intros Hq HP. unfold Url.query_of, Url.searchParams.
  rewrite strip_all.
  2:{ rewrite !all_app, (safe_no_tab q Hq), (safe_no_tab P HP). done. }
  rewrite break_all.
  2:{ rewrite !all_app, (safe_no_char "#" q), (safe_no_char "#" P); done. }
  change ("/?q=" +:+ q +:+ "&page=" +:+ P)
    with (String "/" (String "?" ("q=" +:+ q +:+ String "&" ("page=" +:+ P)))).
  cbn [Url.break]. change (Ascii.eqb "/" "?") with false.
  change (Ascii.eqb "?" "?") with true. cbv iota beta.
  change ("q=" +:+ q +:+ String "&" ("page=" +:+ P))
    with (String "q" (String "=" (q +:+ String "&" ("page=" +:+ P)))).
  cbn [Url.split]. change (Ascii.eqb "q" "&") with false.
  change (Ascii.eqb "=" "&") with false. cbv iota.
  rewrite split_app by by apply safe_no_char.
  rewrite split_all.
  2:{ rewrite all_app, (safe_no_char "&" P); done. }
  cbv iota.
  rewrite !filter_cons_True by done. rewrite filter_nil. cbn [map].
  change (String "q" (String "=" q)) with ("q" +:+ String "=" q).
  change ("page=" +:+ P) with ("page" +:+ String "=" P).
  rewrite !pair_of_safe by done.
  cbn [foldl]. unfold Url.add_param. cbn [fst snd].
  rewrite lookup_empty, lookup_insert_ne by done. rewrite lookup_empty.
  by rewrite insert_empty.
Qed.


(** The debounced navigation, read back by the router: a search term
    without reserved characters becomes the URL's [q], on page 1. *)
Lemma search_url_read_back v :
  Url.safe v = true →
  IndexPage_q (Url.query_of (search_url v)) = v ∧
  IndexPage_page (Url.query_of (search_url v)) = Int 1.
Proof.
  intros Hv. unfold search_url.
  change ("/?q=" +:+ v +:+ "&page=1") with ("/?q=" +:+ v +:+ "&page=" +:+ "1").
  rewrite query_of_page_url by done. split.
  - unfold IndexPage_q. rewrite lookup_insert_ne by done.
    rewrite lookup_singleton_eq. by destruct v.
  - unfold IndexPage_page. by rewrite lookup_insert_eq.
Qed.

(** *** Pagination and the search term *)

(** A pagination control calls [setPage]. *)
Lemma handle_pagination LIST_LIMIT resolve ev st :
  is_pagination ev = true →
  ∃ p, handle LIST_LIMIT resolve ev st = setPage resolve p st.
Proof. destruct ev; try done; intros _; eexists; reflexivity. Qed.

(** C9, as amended. [setPage(p)] navigates to [/?q=<q>&page=<p>] with the
    current [q] written into the URL as it is.  When [q] has no reserved
    character (TAB, LF, CR, [#], [&], [%], [+]) the router reads the same
    [q] and the page [p] back from that URL, so that every pagination
    control leaves the URL's [q] and the search box unchanged. *)
Theorem setPage_keeps_q (st : State) (p : number) :
  Url.safe (IndexPage_q (router_query st)) = true →
  pushed (setPage Url.query_of p st) =
    (now st,
     "/?q=" +:+ IndexPage_q (router_query st) +:+ "&page=" +:+ ToString p)
      :: pushed st ∧
  IndexPage_q (router_query (setPage Url.query_of p st)) =
    IndexPage_q (router_query st) ∧
  IndexPage_page (router_query (setPage Url.query_of p st)) = p ∧
  search (setPage Url.query_of p st) = search st ∧
  ∀ LIST_LIMIT ev st',
    is_pagination ev = true →
    step LIST_LIMIT Url.query_of st ev = Some st' →
    IndexPage_q (router_query st') = IndexPage_q (router_query st) ∧
    search st' = search st.
Proof.
  intros Hsafe.
  assert (∀ n, router_query (setPage Url.query_of n st) =
               <["page" := Str (ToString n)]>
                 {["q" := Str (IndexPage_q (router_query st))]}) as Hread.
  { intros n. simpl. unfold page_url.
    apply query_of_page_url; [done | apply ToString_safe]. }
  assert (∀ n, IndexPage_q (router_query (setPage Url.query_of n st)) =
               IndexPage_q (router_query st)) as Hq.
  { intros n. rewrite Hread. unfold IndexPage_q at 1.
    rewrite lookup_insert_ne by done. rewrite lookup_singleton_eq.
    destruct (IndexPage_q (router_query st)); done. }
  split; [done|]. split; [done|]. split; [|split; [done|]].
  - rewrite Hread. unfold IndexPage_page. rewrite lookup_insert_eq.
    by rewrite ToString_truthy, parseInt_ToString.
  - intros LIST_LIMIT ev st' Hev [_ ->]%step_Some.
    destruct (useEffect_frame (handle LIST_LIMIT Url.query_of ev st))
      as (-> & -> & _).
    destruct (handle_pagination LIST_LIMIT Url.query_of ev st Hev) as [n ->].
    split; [apply Hq | done].
Qed.

(** ** Instances *)

(** The page is debounced: typing [cats] at [/?q=cat&page=3] first pushes
    page 1 of [cat]; the timer cannot fire after 499 ms; after 500 ms it
    pushes [cats], and the timer that follows has nothing left to do. *)
Example typing_cats :
  run 10 Url.query_of cat_page_3 [SearchChange "cats"; Elapse 499; TimerFire 2]
    = None ∧
  pushed <$> run 10 Url.query_of cat_page_3
               [SearchChange "cats"; Elapse 500; TimerFire 2;
                Elapse 500; TimerFire 3]
    = Some [(500, "/?q=cats&page=1"); (0, "/?q=cat&page=1")].
Proof. split; vm_compute; reflexivity. Qed.

(** Against C1 as first stated: at [/?q=cat&page=3], typing [cats]
    navigates at once to [/?q=cat&page=1], so that the URL changes and the
    page is reset without any delay and without the timer; and typing [cat]
    again 100 ms later navigates at once to the URL of that new term, while
    the only timer is due at 600 ms. *)
Lemma search_change_navigates_at_once :
  IndexPage_page (router_query cat_page_3) = Int 3 ∧
  (∃ st,
     step 10 Url.query_of cat_page_3 (SearchChange "cats") = Some st ∧
     now st = 0 ∧
     pushed st = [(0, "/?q=cat&page=1")] ∧
     IndexPage_page (router_query st) = Int 1) ∧
  (∃ st,
     run 10 Url.query_of cat_page_3
       [SearchChange "cats"; Elapse 100; SearchChange "cat"] = Some st ∧
     search st = "cat" ∧
     now st = 100 ∧
     pushed st = [(100, search_url "cat"); (0, "/?q=cat&page=1")] ∧
     map_to_list (timers st) =
       [(3, {| fire_at := 600; timer_search := "cat"; timer_q := "cat" |})]).
Proof.
  split; [reflexivity|]. split.
  - eexists. split; [vm_compute; reflexivity|]. done.
  - eexists. split; [vm_compute; reflexivity|].
    repeat split; vm_compute; reflexivity.
Qed.


(** Against C10 as first stated: [-5] and the empty string do not start
    with a decimal digit, yet the page is [-5] for the one and the default 1
    for the other, not [NaN]. *)
Lemma page_without_leading_digit_is_not_NaN :
  starts_with_digit "-5" = false ∧
  parseInt "-5" = Int (-5) ∧
  IndexPage_page {["page" := Str "-5"]} = Int (-5) ∧
  starts_with_digit "" = false ∧
  IndexPage_page {["page" := Str ""]} = Int 1.
Proof. done. Qed.

(** Against C7 as first stated: a photo is selected while the search is
    still debounced, the query of the new URL fails, and the page is the
    error paragraph, without a modal, although a photo is selected. *)
Lemma selected_photo_without_modal :
  ∃ st,
    run 10 Url.query_of cat_page_3
      [SearchChange "cats"; SelectPhoto a_photo; Elapse 500; TimerFire 2;
       Fetched failed] = Some st ∧
    selectedPhoto st = Some a_photo ∧
    IndexPage 10 st = Paragraph "Error" ∧
    modal_shown (IndexPage 10 st) = false.
Proof. eexists. split; [vm_compute; reflexivity|]. done. Qed.

(** Against C9 as first stated: at [/?q=a%26b&page=1] the search term is
    [a&b]; Next navigates to [/?q=a&b&page=2], whose [q] is [a]. *)
Lemma setPage_cuts_q_at_ampersand :
  IndexPage_q (Url.query_of "/?q=a%26b&page=1") = "a&b" ∧
  ∃ st,
    step 10 Url.query_of (mount (Url.query_of "/?q=a%26b&page=1") loaded)
      NextClick = Some st ∧
    pushed st = [(0, "/?q=a&b&page=2")] ∧
    IndexPage_q (router_query st) = "a" ∧
    IndexPage_q (router_query st) ≠
      IndexPage_q (Url.query_of "/?q=a%26b&page=1").
Proof.
  split; [vm_compute; reflexivity|].
  eexists. split; [vm_compute; reflexivity|]. done.
Qed.

(** The theorems at work on the page opened at [/?q=cat&page=3], with ten
    photos to a page and 95 photos in all. *)

Lemma pagination_disabled_at_boundaries_witness :
  0 < 10 ∧
  pagination_of (IndexPage 10 cat_page_3) = Some (Pagination_view (Int 3) 10) ∧
  ∃ d last,
    data (result cat_page_3) = Some d ∧
    10 * (last - 1) < meta_totalCount d ≤ 10 * last ∧
    (first_disabled (Pagination_view (Int 3) 10) = true ↔
       IndexPage_page (router_query cat_page_3) = Int 1) ∧
    (prev_disabled (Pagination_view (Int 3) 10) = true ↔
       IndexPage_page (router_query cat_page_3) = Int 1) ∧
    (next_disabled (Pagination_view (Int 3) 10) = true ↔
       IndexPage_page (router_query cat_page_3) = Int last) ∧
    (last_disabled (Pagination_view (Int 3) 10) = true ↔
       IndexPage_page (router_query cat_page_3) = Int last).
Proof.
  split; [lia|]. split; [reflexivity|].
  apply (pagination_disabled_at_boundaries 10 cat_page_3); [lia | reflexivity].
Defined.

(** The page opened at [/?page=abc]. *)
Lemma NaN_page_is_used_unvalidated_witness :
  parseInt "abc" = NaN ∧
  IndexPage_page (router_query (mount {["page" := Str "abc"]} loaded)) = NaN ∧
  vars_page
    (useQuery_variables 10
       (router_query (mount {["page" := Str "abc"]} loaded))) = NaN.
Proof.
  destruct (NaN_page_is_used_unvalidated 10 Url.query_of
              (mount {["page" := Str "abc"]} loaded) "abc")
    as (H1 & H2 & H3 & _); [reflexivity | discriminate | reflexivity |].
  exact (conj H1 (conj H2 H3)).
Defined.

(** The same page after the query failed. *)
Lemma error_renders_only_Error_witness :
  error (result (set_result failed cat_page_3)) = Some "Network error" ∧
  IndexPage 10 (set_result failed cat_page_3) = Paragraph "Error".
Proof.
  split; [reflexivity|].
  apply (error_renders_only_Error 10 Url.query_of
           (set_result failed cat_page_3) "Network error").
  reflexivity.
Defined.

Lemma modal_follows_selected_photo_witness :
  error (result cat_page_3) = None ∧
  (modal_shown (IndexPage 10 cat_page_3) = true ↔
     selectedPhoto cat_page_3 ≠ None).
Proof.
  split; [reflexivity|].
  apply (modal_follows_selected_photo 10 Url.query_of cat_page_3).
  reflexivity.
Defined.

Lemma at_most_one_timer_witness :
  reachable 10 Url.query_of cat_page_3 ∧ (size (timers cat_page_3) ≤ 1)%nat.
Proof.
  split; [apply reachable_mount|].
  apply (at_most_one_timer 10 Url.query_of cat_page_3).
  apply reachable_mount.
Defined.

Lemma search_is_debounced_witness :
  reachable 10 Url.query_of cat_page_3 ∧
  ∀ id t, timers cat_page_3 !! id = Some t →
    timer_search t = search cat_page_3 ∧
    timer_q t = IndexPage_q (router_query cat_page_3).
Proof.
  split; [apply reachable_mount|].
  intros id t Hid.
  destruct (search_is_debounced 10 Url.query_of cat_page_3) as (_ & H & _);
    [apply reachable_mount|].
  destruct (H id t Hid) as (Hs & Hq & _). exact (conj Hs Hq).
Defined.

Lemma setPage_keeps_q_witness :
  Url.safe (IndexPage_q (router_query cat_page_3)) = true ∧
  IndexPage_q (router_query (setPage Url.query_of (Int 4) cat_page_3)) =
    IndexPage_q (router_query cat_page_3).
Proof.
  split; [reflexivity|].
  apply (setPage_keeps_q cat_page_3 (Int 4)). reflexivity.
Defined.

(** ** More of the page over the router's reading of URLs *)

Lemma read_back_q q P : IndexPage_q (<["page" := Str P]> {["q" := Str q]}) = q.
Proof.
  unfold IndexPage_q. rewrite lookup_insert_ne by done.
  rewrite lookup_singleton_eq. by destruct q.
Qed.

Lemma read_back_page q p :
  IndexPage_page (<["page" := Str (ToString p)]> {["q" := Str q]}) = p.
Proof.
  unfold IndexPage_page. rewrite lookup_insert_eq.
  by rewrite ToString_truthy, parseInt_ToString.
Qed.

Lemma setPage_read_back st p :
  Url.safe (IndexPage_q (router_query st)) = true →
  router_query (setPage Url.query_of p st) =
  <["page" := Str (ToString p)]> {["q" := Str (IndexPage_q (router_query st))]}.
Proof.
  intros Hsafe. simpl. unfold page_url.
  apply query_of_page_url; [done | apply ToString_safe].
Qed.

(** A click on a pagination control, read back by the router. *)
Lemma step_setPage LIST_LIMIT st ev p :
  handle LIST_LIMIT Url.query_of ev st = setPage Url.query_of p st →
  enabled LIST_LIMIT st ev = true →
  Url.safe (IndexPage_q (router_query st)) = true →
  ∃ st',
    step LIST_LIMIT Url.query_of st ev = Some st' ∧
    IndexPage_q (router_query st') = IndexPage_q (router_query st) ∧
    IndexPage_page (router_query st') = p ∧
    search st' = search st ∧
    result st' = result st.
Proof.
  intros Hhandle Hev Hsafe.
  exists (useEffect (handle LIST_LIMIT Url.query_of ev st)).
  split; [by apply step_Some|].
  destruct (useEffect_frame (handle LIST_LIMIT Url.query_of ev st))
    as (-> & -> & _ & -> & _).
  rewrite Hhandle, setPage_read_back by done.
  by rewrite read_back_q, read_back_page.
Qed.

Lemma pagination_enabled LIST_LIMIT st ev :
  pagination_of (IndexPage LIST_LIMIT st) ≠ None →
  match ev with
  | FirstClick | PrevClick | NextClick | LastClick => True
  | _ => False
  end →
  enabled LIST_LIMIT st ev = true.
Proof.
  intros Hbar Hev.
  destruct ev; try done; simpl;
    destruct (IndexPage LIST_LIMIT st) as [|? ? ? [bar|] ?]; done.
Qed.

(** The bar stays on the page as long as the query result is the same. *)
Lemma pagination_stays LIST_LIMIT st st' :
  pagination_of (IndexPage LIST_LIMIT st) ≠ None →
  result st' = result st →
  pagination_of (IndexPage LIST_LIMIT st') =
  Some (Pagination_view (IndexPage_page (router_query st'))
          (lastPage LIST_LIMIT (result st))).
Proof.
  intros Hbar Hr. revert Hbar. unfold IndexPage. rewrite Hr.
  destruct (error (result st)); [done|].
  destruct (data (result st)) as [d|]; [|done].
  cbn -[truthy Pagination_view lastPage].
  destruct (truthy (Int (meta_totalCount d))); done.
Qed.

(** First leads to page 1, where First and Prev are disabled; Last leads to
    the last page, where Next and Last are disabled. *)
Theorem first_and_last_reach_the_boundaries (LIST_LIMIT : Z) (st : State) :
  Url.safe (IndexPage_q (router_query st)) = true →
  pagination_of (IndexPage LIST_LIMIT st) ≠ None →
  (∃ st' bar,
     step LIST_LIMIT Url.query_of st FirstClick = Some st' ∧
     IndexPage_page (router_query st') = Int 1 ∧
     pagination_of (IndexPage LIST_LIMIT st') = Some bar ∧
     first_disabled bar = true ∧ prev_disabled bar = true) ∧
  (∃ st' bar,
     step LIST_LIMIT Url.query_of st LastClick = Some st' ∧
     IndexPage_page (router_query st') =
       Int (lastPage LIST_LIMIT (result st)) ∧
     pagination_of (IndexPage LIST_LIMIT st') = Some bar ∧
     next_disabled bar = true ∧ last_disabled bar = true).
Proof.
  intros Hsafe Hbar. split.
  - destruct (step_setPage LIST_LIMIT st FirstClick (Int 1))
      as (st' & Hstep & _ & Hpage & _ & Hr);
      [done | by apply pagination_enabled | done |].
    eexists st', _. split; [done|]. split; [done|].
    split; [by apply pagination_stays|].
    rewrite Hpage. done.
  - destruct (step_setPage LIST_LIMIT st LastClick
                (Int (lastPage LIST_LIMIT (result st))))
      as (st' & Hstep & _ & Hpage & _ & Hr);
      [done | by apply pagination_enabled | done |].
    eexists st', _. split; [done|]. split; [done|].
    split; [by apply pagination_stays|].
    rewrite Hpage. simpl. by rewrite Z.eqb_refl.
Qed.

(** Next leads to the page after the current one and Prev back to it, with
    the same [q] and the same search box. *)
Theorem next_then_prev_returns (LIST_LIMIT : Z) (st : State) (p : Z) :
  Url.safe (IndexPage_q (router_query st)) = true →
  pagination_of (IndexPage LIST_LIMIT st) ≠ None →
  IndexPage_page (router_query st) = Int p →
  ∃ st1 st2,
    step LIST_LIMIT Url.query_of st NextClick = Some st1 ∧
    IndexPage_page (router_query st1) = Int (p + 1) ∧
    step LIST_LIMIT Url.query_of st1 PrevClick = Some st2 ∧
    IndexPage_page (router_query st2) = Int p ∧
    IndexPage_q (router_query st2) = IndexPage_q (router_query st) ∧
    search st2 = search st.
Proof.
  intros Hsafe Hbar Hpage.
  destruct (step_setPage LIST_LIMIT st NextClick (Int (p + 1)))
    as (st1 & Hstep1 & Hq1 & Hpage1 & Hs1 & Hr1);
    [by simpl; unfold handleNextClick; rewrite Hpage
    | by apply pagination_enabled | done |].
  destruct (step_setPage LIST_LIMIT st1 PrevClick (Int p))
    as (st2 & Hstep2 & Hq2 & Hpage2 & Hs2 & Hr2).
  { simpl. unfold handlePrevClick. rewrite Hpage1. simpl.
    by replace (p + 1 - 1) with p by lia. }
  { apply pagination_enabled; [|done].
    by rewrite (pagination_stays LIST_LIMIT st st1). }
  { by rewrite Hq1. }
  exists st1, st2. repeat (split; [done|]). split; congruence.
Qed.

(** A search term without reserved characters, typed at a URL whose [q] has
    none, is in the URL 500 ms later, on page 1, and the query is made for
    it. *)
Theorem typed_term_reaches_the_url (LIST_LIMIT : Z) (st : State) (v : string) :
  reachable LIST_LIMIT Url.query_of st →
  error (result st) = None →
  Url.safe (IndexPage_q (router_query st)) = true →
  Url.safe v = true →
  v ≠ search st →
  ∃ st',
    run LIST_LIMIT Url.query_of st
      [SearchChange v; Elapse 500; TimerFire (next_handle st)] = Some st' ∧
    search st' = v ∧
    IndexPage_q (router_query st') = v ∧
    IndexPage_page (router_query st') = Int 1 ∧
    useQuery_variables LIST_LIMIT (router_query st') =
      {| vars_q := v; vars_page := Int 1; vars_limit := LIST_LIMIT |}.
Proof.
  intros Hsync%reachable_in_sync Herr Hq Hv Hnew.
  assert (∀ x, Url.safe x = true →
            Url.query_of (search_url x) =
            <["page" := Str "1"]> {["q" := Str x]}) as Hread.
  { intros x Hx. by apply (query_of_page_url x "1"). }
  assert (∀ x, useQuery_variables LIST_LIMIT
                 (<["page" := Str "1"]> {["q" := Str x]}) =
               {| vars_q := x; vars_page := Int 1;
                  vars_limit := LIST_LIMIT |}) as Hvars.
  { intros x. unfold useQuery_variables.
    rewrite lookup_insert_eq, lookup_insert_ne by done.
    by rewrite lookup_singleton_eq. }
  destruct (step_changed LIST_LIMIT Url.query_of st (SearchChange v) Hsync)
    as (st1 & Hstep1 & Hsync1 & Hq1 & Hs1 & _ & Hnow1 & _ & _ & Ht1).
  { unfold enabled, IndexPage. by rewrite Herr. }
  { simpl. congruence. }
  simpl in Hq1, Hs1, Hnow1, Ht1.
  change (page_url (IndexPage_q (router_query st)) (Int 1))
    with (search_url (IndexPage_q (router_query st))) in Hq1, Ht1.
  rewrite Hread in Hq1, Ht1 by done. rewrite read_back_q in Ht1.
  pose proof (set_now_in_sync st1 500 Hsync1 ltac:(lia)) as Hsync1'.
  cbn [run]. rewrite Hstep1, (step_Elapse _ _ st1 500 Hsync1 ltac:(lia)).
  destruct (decide (v = IndexPage_q (router_query st))) as [Hsame|Hdiff].
  - destruct (step_fire_idle LIST_LIMIT Url.query_of
                (set_now (now st1 + 500) st1) (next_handle st)
                {| fire_at := now st + 500; timer_search := v;
                   timer_q := IndexPage_q (router_query st) |} Hsync1')
      as (st' & -> & _ & Hs' & _ & Hq' & _).
    { simpl. rewrite Ht1. apply lookup_singleton_eq. }
    { simpl. lia. }
    { simpl. rewrite Hs1, Hq1, read_back_q. done. }
    simpl in Hs', Hq'. exists st'. split; [done|].
    rewrite Hs', Hq', Hs1, Hq1, read_back_q, Hvars, <- Hsame.
    repeat split; done.
  - destruct (step_fire_pushes LIST_LIMIT Url.query_of
                (set_now (now st1 + 500) st1) (next_handle st)
                {| fire_at := now st + 500; timer_search := v;
                   timer_q := IndexPage_q (router_query st) |} Hsync1')
      as (st' & -> & _ & Hs' & _ & Hq' & _).
    { simpl. rewrite Ht1. apply lookup_singleton_eq. }
    { simpl. lia. }
    { simpl. rewrite Hs1, Hq1, read_back_q. done. }
    simpl in Hs', Hq'. exists st'. split; [done|].
    rewrite Hs', Hq', Hs1, Hread, read_back_q, Hvars by done.
    repeat split; done.
Qed.

(** *** Text after the page number *)

Lemma digits_stop tail a :
  starts_with_digit tail = false → digits tail (Some a) = Some a.
Proof. destruct tail as [|c r]; [done|]. simpl. by intros ->. Qed.

Lemma digits_of_uint_acc_then d p tail :
  starts_with_digit tail = false →
  digits (NilEmpty.string_of_uint d +:+ tail) (Some (Z.pos p)) =
  Some (Z.pos (Pos.of_uint_acc d p)).
Proof.
  intros Htail. revert p.
  induction d as [|d IH|d IH|d IH|d IH|d IH|d IH|d IH|d IH|d IH|d IH];
    intros p; [by apply digits_stop|..];
    cbn [NilEmpty.string_of_uint Pos.of_uint_acc];
    (match goal with
     | |- context [String ?c ?r +:+ tail] =>
         change (String c r +:+ tail) with (String c (r +:+ tail))
     end);
    cbn [digits];
    (match goal with |- context [is_digit ?c] => change (is_digit c) with true end);
    cbv iota; rewrite <- IH; f_equal; f_equal;
    (match goal with
     | |- context [digit_value ?c] =>
         let v := eval vm_compute in (digit_value c) in
         change (digit_value c) with v
     end);
    cbn; lia.
Qed.

Lemma digits_of_uint_then d tail :
  starts_with_digit tail = false →
  d ≠ Decimal.Nil →
  digits (NilEmpty.string_of_uint d +:+ tail) None = Some (Z.of_uint d).
Proof.
  intros Htail. unfold Z.of_uint.
  assert (∀ d, digits (NilEmpty.string_of_uint d +:+ tail) (Some 0) =
               Some (Z.of_N (Pos.of_uint d))) as Hzero.
  { clear d. intros d.
    induction d as [|d IH|d IH|d IH|d IH|d IH|d IH|d IH|d IH|d IH|d IH];
      [by apply digits_stop|..];
      cbn [NilEmpty.string_of_uint Pos.of_uint];
      (match goal with
       | |- context [String ?c ?r +:+ tail] =>
           change (String c r +:+ tail) with (String c (r +:+ tail))
       end);
      cbn [digits];
      (match goal with
       | |- context [is_digit ?c] => change (is_digit c) with true
       end);
      cbv iota; [exact IH|..]; cbn [Z.of_N];
      rewrite <- (digits_of_uint_acc_then _ _ tail) by done; f_equal. }
  intros Hd. rewrite <- Hzero. destruct d; done.
Qed.

Lemma parseInt_then n tail :
  starts_with_digit tail = false →
  parseInt (ToString (Int n) +:+ tail) = Int n.
Proof.
  intros Htail.
  destruct n as [|p|p].
  - change (ToString (Int 0) +:+ tail) with (String "0" tail).
    unfold parseInt. cbn [trim_start].
    change (is_white_space "0") with false. cbv iota.
    change (Ascii.eqb "0" "-") with false.
    change (Ascii.eqb "0" "+") with false. cbv iota.
    cbn [digits]. change (is_digit "0") with true. cbv iota.
    by rewrite digits_stop.
  - pose proof (DecimalPos.Unsigned.to_uint_nonnil p) as Hnil.
    unfold ToString, NilZero.string_of_int, Z.to_int.
    rewrite string_of_uint_nonnil by done.
    pose proof (digits_of_uint_then (Pos.to_uint p) tail Htail Hnil) as Hd.
    unfold parseInt.
    destruct (NilEmpty.string_of_uint (Pos.to_uint p)) as [|c r] eqn:Hs.
    { destruct (Pos.to_uint p); done. }
    assert (is_digit c = true) as Hc.
    { pose proof (starts_with_digit_uint (Pos.to_uint p) Hnil) as H.
      by rewrite Hs in H. }
    change (String c r +:+ tail) with (String c (r +:+ tail)) in *.
    cbn [trim_start].
    assert (is_white_space c = false) as ->.
    { revert Hc. unfold is_digit, is_white_space. lia. }
    assert (Ascii.eqb c "-" = false) as ->.
    { apply Ascii.eqb_neq. intros ->. done. }
    assert (Ascii.eqb c "+" = false) as ->.
    { apply Ascii.eqb_neq. intros ->. done. }
    rewrite Hd. unfold Z.of_uint. rewrite DecimalPos.Unsigned.of_to.
    simpl. done.
  - pose proof (DecimalPos.Unsigned.to_uint_nonnil p) as Hnil.
    unfold ToString, NilZero.string_of_int, Z.to_int.
    rewrite string_of_uint_nonnil by done.
    change (String "-" (NilEmpty.string_of_uint (Pos.to_uint p)) +:+ tail)
      with (String "-" (NilEmpty.string_of_uint (Pos.to_uint p) +:+ tail)).
    unfold parseInt. cbn [trim_start].
    change (is_white_space "-") with false. cbv iota.
    change (Ascii.eqb "-" "-") with true. cbv iota.
    rewrite digits_of_uint_then by done. unfold Z.of_uint.
    rewrite DecimalPos.Unsigned.of_to. done.
Qed.

(** [parseInt] stops at the first character that is not a digit: a [page]
    parameter made of a safe integer and any text that does not go on with
    a digit, such as [3abc], is that page. *)
Theorem page_ignores_text_after_the_number (query : gmap string value)
  (n : Z) (tail : string) :
  safe_integer n →
  starts_with_digit tail = false →
  IndexPage_page (<["page" := Str (ToString (Int n) +:+ tail)]> query) =
    Int n ∧
  ∀ LIST_LIMIT,
    vars_page
      (useQuery_variables LIST_LIMIT
         (<["page" := Str (ToString (Int n) +:+ tail)]> query)) = Int n.
Proof.
  intros _ Htail. split.
  - unfold IndexPage_page. rewrite lookup_insert_eq, parseInt_then by done.
    assert (truthy_string (ToString (Int n) +:+ tail) = true) as ->; [|done].
    pose proof (ToString_truthy (Int n)) as H.
    destruct (ToString (Int n)); done.
  - intros LIST_LIMIT. unfold useQuery_variables. cbn [vars_page].
    by rewrite lookup_insert_eq, parseInt_then.
Qed.

(** *** Numbered buttons and the pending timer *)

(** A click on a numbered button makes its page the current one, keeps [q],
    and on the bar rendered next the active buttons are exactly those of
    that page. *)
Theorem numbered_button_selects_its_page (LIST_LIMIT : Z) (st st' : State)
  (n : Z) :
  Url.safe (IndexPage_q (router_query st)) = true →
  step LIST_LIMIT Url.query_of st (PageSelect n) = Some st' →
  IndexPage_page (router_query st') = Int n ∧
  IndexPage_q (router_query st') = IndexPage_q (router_query st) ∧
  ∃ bar,
    pagination_of (IndexPage LIST_LIMIT st') = Some bar ∧
    ∀ m active, (m, active) ∈ items bar → (active = true ↔ m = n).
Proof.
  intros Hsafe Hstep. pose proof Hstep as [Hev _]%step_Some.
  destruct (step_setPage LIST_LIMIT st (PageSelect n) (Int n))
    as (st2 & Hstep2 & Hq & Hpage & _ & Hr); [done..|].
  rewrite Hstep in Hstep2. injection Hstep2 as <-.
  split; [done|]. split; [done|].
  assert (pagination_of (IndexPage LIST_LIMIT st) ≠ None) as Hbar.
  { simpl in Hev.
    destruct (IndexPage LIST_LIMIT st) as [|? ? ? [bar|] ?]; done. }
  eexists. split; [by apply pagination_stays|].
  intros m active [_ ->]%elem_of_items. rewrite Hpage. simpl.
  by rewrite Z.eqb_eq.
Qed.

(** While the URL's [q] has no reserved character, a pagination control
    neither clears nor restarts a pending debounce timer, and leaves the
    search box as it is. *)
Theorem pagination_leaves_the_timer_alone (LIST_LIMIT : Z) (st st' : State)
  (ev : Event) :
  reachable LIST_LIMIT Url.query_of st →
  Url.safe (IndexPage_q (router_query st)) = true →
  is_pagination ev = true →
  step LIST_LIMIT Url.query_of st ev = Some st' →
  timers st' = timers st ∧ handler st' = handler st ∧ search st' = search st.
Proof.
  intros Hsync%reachable_in_sync Hsafe Hpag Hstep.
  pose proof Hstep as [Hev _]%step_Some.
  destruct (handle_pagination LIST_LIMIT Url.query_of ev st Hpag) as [p Hp].
  destruct (step_unchanged LIST_LIMIT Url.query_of st ev Hsync Hev)
    as [Hstep' _].
  { rewrite Hp, setPage_read_back, read_back_q by done. done. }
  rewrite Hstep in Hstep'. injection Hstep' as ->. rewrite Hp. done.
Qed.

(** ** More instances *)

Lemma lastPage_counts_pages_witness :
  0 < 10 ∧
  1 ≤ lastPage 10 loaded ∧
  10 * (lastPage 10 loaded - 1) < 95 ≤ 10 * lastPage 10 loaded.
Proof.
  split; [lia|].
  destruct (lastPage_counts_pages 10 loaded) as (_ & _ & H); [lia|].
  apply (H _ eq_refl). simpl. lia.
Defined.

Lemma numbered_buttons_window_witness :
  1 ≤ 3 ≤ lastPage 10 (result cat_page_3) ∧
  3 ∈ (items (Pagination_view (Int 3) 10)).*1 ∧
  (length (items (Pagination_view (Int 3) 10)) ≤ 5)%nat.
Proof.
  split; [vm_compute; split; discriminate|].
  destruct (numbered_buttons_window 10 cat_page_3
              (Pagination_view (Int 3) 10) 3) as (_ & H1 & _ & H2);
    [reflexivity | reflexivity | vm_compute; split; discriminate |].
  exact (conj H1 H2).
Defined.

(** The page opened at [/?page=20], ten pages beyond the last. *)
Lemma numbered_buttons_beyond_last_witness :
  render 10 (mount {["page" := Str "20"]} loaded) =
    Some (IndexPage 10 (mount {["page" := Str "20"]} loaded)) ∧
  safe_integer (20 + 3) ∧
  lastPage 10 loaded + 3 ≤ 20 ∧
  ∀ n, n ∈ (items (Pagination_view (Int 20) 10)).*1 ↔ 10 + 1 < n ≤ 20 - 2.
Proof.
  split; [reflexivity|]. split; [unfold safe_integer; lia|].
  split; [vm_compute; discriminate|].
  destruct (numbered_buttons_beyond_last 10
              (mount {["page" := Str "20"]} loaded)
              (IndexPage 10 (mount {["page" := Str "20"]} loaded))
              (Pagination_view (Int 20) 10) 20) as (_ & H & _);
    [reflexivity | reflexivity | reflexivity | unfold safe_integer; lia
    | vm_compute; discriminate | vm_compute; discriminate |].
  exact H.
Defined.


Lemma server_and_client_agree_witness :
  ({["page" := Str "2"]} : gmap string value) !! "page" ≠ Some (Str "") ∧
  getServerSideProps_variables 10 {["page" := Str "2"]} =
  useQuery_variables 10 {["page" := Str "2"]}.
Proof.
  split; [discriminate|].
  apply (server_and_client_agree 10 {["page" := Str "2"]}). discriminate.
Defined.

Lemma quiet_events_leave_the_debounce_alone_witness :
  reachable 10 Url.query_of cat_page_3 ∧
  timers (useEffect (handle 10 Url.query_of (SelectPhoto a_photo) cat_page_3))
    = timers cat_page_3.
Proof.
  split; [apply reachable_mount|].
  apply (quiet_events_leave_the_debounce_alone 10 Url.query_of cat_page_3
           (useEffect (handle 10 Url.query_of (SelectPhoto a_photo) cat_page_3))
           (SelectPhoto a_photo));
    [apply reachable_mount | reflexivity | reflexivity].
Defined.

Lemma typing_on_restarts_the_timer_witness :
  reachable 10 Url.query_of cat_page_3 ∧
  ∃ st2,
    run 10 Url.query_of cat_page_3
      [SearchChange "cats"; Elapse 100; SearchChange "cats and dogs"]
      = Some st2 ∧
    search st2 = "cats and dogs".
Proof.
  split; [apply reachable_mount|].
  destruct (typing_on_restarts_the_timer 10 Url.query_of cat_page_3
              "cats" "cats and dogs" 100) as (st2 & Hrun & Hs & _);
    [apply reachable_mount | reflexivity | discriminate | discriminate
    | lia |].
  exists st2. exact (conj Hrun Hs).
Defined.

Lemma route_change_is_overridden_witness :
  reachable 10 Url.query_of cat_page_3 ∧
  ∃ st',
    run 10 Url.query_of cat_page_3
      [RouteChange {["q" := Str "dog"]}; Elapse 500; TimerFire 2] = Some st' ∧
    search st' = "cat".
Proof.
  split; [apply reachable_mount|].
  destruct (route_change_is_overridden 10 Url.query_of cat_page_3
              {["q" := Str "dog"]}) as (st' & Hrun & Hs & _);
    [apply reachable_mount | discriminate | discriminate |].
  exists st'. exact (conj Hrun Hs).
Defined.

Lemma first_and_last_reach_the_boundaries_witness :
  Url.safe (IndexPage_q (router_query cat_page_3)) = true ∧
  ∃ st' bar,
    step 10 Url.query_of cat_page_3 LastClick = Some st' ∧
    IndexPage_page (router_query st') = Int (lastPage 10 (result cat_page_3)) ∧
    pagination_of (IndexPage 10 st') = Some bar ∧
    next_disabled bar = true ∧ last_disabled bar = true.
Proof.
  split; [reflexivity|].
  apply (first_and_last_reach_the_boundaries 10 cat_page_3);
    [reflexivity | discriminate].
Defined.

Lemma next_then_prev_returns_witness :
  IndexPage_page (router_query cat_page_3) = Int 3 ∧
  ∃ st1 st2,
    step 10 Url.query_of cat_page_3 NextClick = Some st1 ∧
    IndexPage_page (router_query st1) = Int (3 + 1) ∧
    step 10 Url.query_of st1 PrevClick = Some st2 ∧
    IndexPage_page (router_query st2) = Int 3 ∧
    IndexPage_q (router_query st2) = IndexPage_q (router_query cat_page_3) ∧
    search st2 = search cat_page_3.
Proof.
  split; [reflexivity|].
  apply (next_then_prev_returns 10 cat_page_3 3);
    [reflexivity | discriminate | reflexivity].
Defined.

Lemma typed_term_reaches_the_url_witness :
  Url.safe "dogs" = true ∧
  ∃ st',
    run 10 Url.query_of cat_page_3
      [SearchChange "dogs"; Elapse 500; TimerFire (next_handle cat_page_3)]
      = Some st' ∧
    search st' = "dogs" ∧
    IndexPage_q (router_query st') = "dogs" ∧
    IndexPage_page (router_query st') = Int 1 ∧
    useQuery_variables 10 (router_query st') =
      {| vars_q := "dogs"; vars_page := Int 1; vars_limit := 10 |}.
Proof.
  split; [reflexivity|].
  apply (typed_term_reaches_the_url 10 cat_page_3 "dogs");
    [apply reachable_mount | reflexivity | reflexivity | reflexivity
    | discriminate].
Defined.

Lemma page_ignores_text_after_the_number_witness :
  safe_integer 3 ∧
  starts_with_digit "abc" = false ∧
  IndexPage_page (<["page" := Str (ToString (Int 3) +:+ "abc")]> ∅) = Int 3.
Proof.
  split; [unfold safe_integer; lia|]. split; [reflexivity|].
  apply (page_ignores_text_after_the_number ∅ 3 "abc");
    [unfold safe_integer; lia | reflexivity].
Defined.

Lemma numbered_button_selects_its_page_witness :
  step 10 Url.query_of cat_page_3 (PageSelect 5) =
    Some (useEffect (handle 10 Url.query_of (PageSelect 5) cat_page_3)) ∧
  IndexPage_page
    (router_query (useEffect (handle 10 Url.query_of (PageSelect 5) cat_page_3)))
    = Int 5.
Proof.
  split; [reflexivity|].
  apply (numbered_button_selects_its_page 10 cat_page_3
           (useEffect (handle 10 Url.query_of (PageSelect 5) cat_page_3)) 5);
    reflexivity.
Defined.

Lemma pagination_leaves_the_timer_alone_witness :
  reachable 10 Url.query_of cat_page_3 ∧
  timers (useEffect (handle 10 Url.query_of NextClick cat_page_3)) =
    timers cat_page_3.
Proof.
  split; [apply reachable_mount|].
  apply (pagination_leaves_the_timer_alone 10 cat_page_3
           (useEffect (handle 10 Url.query_of NextClick cat_page_3)) NextClick);
    [apply reachable_mount | reflexivity | reflexivity | reflexivity].
Defined.
